(* ===================================================================== *)
(*  securechat: the WebSocket signaling relay, the message broadcaster   *)
(*  and the conversation retention queries of server/routes.ts,          *)
(*  embedded in Rocq and checked against the written specification.      *)
(* ===================================================================== *)

From stdpp Require Import base tactics decidable option list strings numbers.

Set Default Proof Using "Type".

(* --------------------------------------------------------------------- *)
(*  JavaScript values the server code relies on                          *)
(* --------------------------------------------------------------------- *)

(** A value that travels as JSON.  The relay treats the [data] payload of
    a message as opaque ([data: any]); nothing below inspects its shape.
    [JDate] is a [Date] object, which [JSON.stringify] writes as its ISO
    string. *)
#[local] Unset Elimination Schemes.
Inductive json : Type :=
  | JNull
  | JBool (b : bool)
  | JNum (n : Z)
  | JStr (s : string)
  | JDate (ms : Z)
  | JArr (items : list json)
  | JObj (fields : list (string * json)).
#[local] Set Elimination Schemes.

(** Truthiness of a [string | undefined] value: [undefined] and the empty
    string are falsy, every other string is truthy. *)
Definition truthy (v : option string) : bool :=
  match v with
  | Some s => bool_decide (s ≠ "")
  | None => false
  end.

(** The insertion-ordered [Map<string, V>] of JavaScript.  [forEach]
    visits the entries in insertion order; [set] on a key that is present
    keeps the key's position and replaces its value. *)
Module JsMap.
Section JsMap.
Context {V : Type}.

Definition t := list (string * V).

Definition empty : t := [].

Fixpoint get (k : string) (m : t) : option V :=
  match m with
  | [] => None
  | (k', v) :: m' => if decide (k' = k) then Some v else get k m'
  end.

Fixpoint set (k : string) (v : V) (m : t) : t :=
  match m with
  | [] => [(k, v)]
  | (k', v') :: m' =>
      if decide (k' = k) then (k, v) :: m' else (k', v') :: set k v m'
  end.

Fixpoint delete (k : string) (m : t) : t :=
  match m with
  | [] => []
  | (k', v') :: m' =>
      if decide (k' = k) then delete k m' else (k', v') :: delete k m'
  end.

Definition keys (m : t) : list string := m.*1.

Definition values (m : t) : list V := m.*2.
End JsMap.
Arguments t : clear implicits.
End JsMap.

(* --------------------------------------------------------------------- *)
(*  Messages and sockets                                                 *)
(* --------------------------------------------------------------------- *)

(** A frame after [JSON.parse], read at the type the handler casts it to,
    [SignalingMessage & { userId?: string }].  The cast checks nothing, so
    every property may be missing; [type] is any string (the handler itself
    compares it with 'auth').  [from] is the property the relay writes on
    the copy it forwards; a sender may also supply one.  Properties outside
    this list are copied verbatim by the object spread and never read. *)
Module Msg.
Record t : Type := mk {
  type : option string;
  target : option string;
  data : option json;
  conversationId : option Z;
  userId : option string;
  from : option string;
}.

(** [{ ...m, from: uid }] *)
Definition with_from (uid : option string) (m : t) : t :=
  {| type := type m; target := target m; data := data m;
     conversationId := conversationId m; userId := userId m;
     from := uid |}.

(** [{ type: 'broadcast', conversationId, ...m }]: a property present in
    [m] overrides the one written before the spread. *)
Definition broadcast_of (cid : Z) (m : t) : t :=
  {| type := match type m with Some ty => Some ty | None => Some "broadcast" end;
     target := target m; data := data m;
     conversationId :=
       match conversationId m with Some c => Some c | None => Some cid end;
     userId := userId m; from := from m |}.
End Msg.

(** The seven kinds of the [SignalingMessage] interface. *)
Definition signaling_kinds : list string :=
  ["offer"; "answer"; "ice-candidate"; "call-start"; "call-end";
   "call-accept"; "call-reject"].

Definition recognized (ty : option string) : Prop :=
  match ty with
  | Some k => k ∈ signaling_kinds
  | None => False
  end.

Inductive ReadyState : Type := CONNECTING | OPEN | CLOSING | CLOSED.

Global Instance ReadyState_eq_dec : EqDecision ReadyState.
Proof. solve_decision. Defined.

(** A [WebSocketWithUser] object.  [sendThrows] is the behaviour of the
    transport underneath [send], which the server code does not control:
    when set, a call of [send] on this socket raises instead of accepting
    the frame.  Nothing in the sources sets it: a socket is created with
    the flag off, and the handlers never touch it.  It is there so that
    the catch clauses of the handlers have something to catch. *)
Module Ws.
Record t : Type := mk {
  readyState : ReadyState;
  userId : option string;
  sendThrows : bool;
}.

Definition fresh : t :=
  {| readyState := OPEN; userId := None; sendThrows := false |}.

Definition set_userId (uid : option string) (w : t) : t :=
  {| readyState := readyState w; userId := uid; sendThrows := sendThrows w |}.

Definition set_readyState (r : ReadyState) (w : t) : t :=
  {| readyState := r; userId := userId w; sendThrows := sendThrows w |}.

Definition set_sendThrows (b : bool) (w : t) : t :=
  {| readyState := readyState w; userId := userId w; sendThrows := b |}.
End Ws.

(* --------------------------------------------------------------------- *)
(*  The relational store: shared/schema.ts and DatabaseStorage           *)
(* --------------------------------------------------------------------- *)

(** Instants are milliseconds since the epoch ([Date.getTime]); a
    nullable column is an [option], [None] being SQL NULL. *)
Module Conversation.
Record t : Type := mk {
  id : Z;
  participant1Id : string;
  participant2Id : string;
  lastMessageAt : option Z;
  createdAt : option Z;
  autoClearAfter : option string;
  lastClearedAt : option Z;
}.

Definition set_lastMessageAt (ts : option Z) (c : t) : t :=
  {| id := id c; participant1Id := participant1Id c;
   participant2Id := participant2Id c; lastMessageAt := ts;
   createdAt := createdAt c; autoClearAfter := autoClearAfter c;
   lastClearedAt := lastClearedAt c |}.

Definition set_lastClearedAt (ts : option Z) (c : t) : t :=
  {| id := id c; participant1Id := participant1Id c;
   participant2Id := participant2Id c; lastMessageAt := lastMessageAt c;
   createdAt := createdAt c; autoClearAfter := autoClearAfter c;
   lastClearedAt := ts |}.
End Conversation.

Module Message.
Record t : Type := mk {
  id : Z;
  conversationId : Z;
  senderId : string;
  content : string;
  messageType : option string;
  encrypted : option bool;
  createdAt : option Z;
}.

Global Instance eq_dec : EqDecision t.
Proof. solve_decision. Defined.

Definition opt_json {A : Type} (f : A → json) (v : option A) : json :=
  match v with Some a => f a | None => JNull end.

(** The row as the object the store returns (camel-case property names). *)
Definition to_json (m : t) : json :=
  JObj [("id", JNum (id m));
      ("conversationId", JNum (conversationId m));
      ("senderId", JStr (senderId m));
      ("content", JStr (content m));
      ("messageType", opt_json JStr (messageType m));
      ("encrypted", opt_json JBool (encrypted m));
      ("createdAt", opt_json JDate (createdAt m))].
End Message.

(** A property of the request body for a nullable column that has a
    default: left out ([undefined]), or present with a value that may be
    [null].  The INSERT applies the column default to the first and
    stores the second as it is, NULL included. *)
Inductive Optional (A : Type) : Type :=
  | Undefined
  | Present (value : option A).
Arguments Undefined {A}.
Arguments Present {A} value.

Definition or_default {A : Type} (default : A) (o : Optional A) : option A :=
  match o with
  | Undefined => Some default
  | Present value => value
  end.

(** [InsertMessage]: the columns a caller supplies; [id] and [createdAt]
    are omitted by [insertMessageSchema] and filled in by the store. *)
Module InsertMessage.
Record t : Type := mk {
  conversationId : Z;
  senderId : string;
  content : string;
  messageType : Optional string;
  encrypted : Optional bool;
}.
End InsertMessage.

Record Database : Type := mkDatabase {
  users : list string;
  conversations : list Conversation.t;
  messages : list Message.t;
  messages_id_seq : Z;
}.

(** SQL's three-valued logic: [None] is the unknown truth value that a
    comparison with NULL produces. *)
Definition sql_eq (col : option string) (lit : string) : option bool :=
  (λ v, bool_decide (v = lit)) <$> col.

Definition sql_lt (col : option Z) (lit : Z) : option bool :=
  (λ v, bool_decide (v < lit)%Z) <$> col.

Definition sql_and (a b : option bool) : option bool :=
  match a, b with
  | Some false, _ | _, Some false => Some false
  | Some true, Some true => Some true
  | _, _ => None
  end.

Definition sql_or (a b : option bool) : option bool :=
  match a, b with
  | Some true, _ | _, Some true => Some true
  | Some false, Some false => Some false
  | _, _ => None
  end.

(** A row is selected when its WHERE clause evaluates to true (neither
    false nor unknown). *)
Definition selected (w : option bool) : bool :=
  match w with Some true => true | _ => false end.

Definition oneDayAgo (now : Z) : Z := (now - 24 * 60 * 60 * 1000)%Z.
Definition oneWeekAgo (now : Z) : Z := (now - 7 * 24 * 60 * 60 * 1000)%Z.
Definition thirtyDaysAgo (now : Z) : Z := (now - 30 * 24 * 60 * 60 * 1000)%Z.

(** The WHERE clause of [getConversationsToClean]. *)
Definition toClean_where (now : Z) (c : Conversation.t) : option bool :=
  sql_or
    (sql_and (sql_eq (Conversation.autoClearAfter c) "24h")
             (sql_lt (Conversation.lastMessageAt c) (oneDayAgo now)))
    (sql_or
       (sql_and (sql_eq (Conversation.autoClearAfter c) "1week")
                (sql_lt (Conversation.lastMessageAt c) (oneWeekAgo now)))
       (sql_and (sql_eq (Conversation.autoClearAfter c) "30days")
                (sql_lt (Conversation.lastMessageAt c) (thirtyDaysAgo now)))).

(** The classifier the query applies to one conversation at time [now]. *)
Definition isDue (c : Conversation.t) (now : Z) : bool :=
  selected (toClean_where now c).

(** [getConversationsToClean], with the value of [new Date()] it reads
    passed in as [now]. *)
Definition getConversationsToClean (now : Z) (d : Database) : list Conversation.t :=
  List.filter (λ c, isDue c now) (conversations d).

(** [clearConversationMessages]: DELETE FROM messages WHERE
    conversation_id = id, then UPDATE conversations SET last_cleared_at =
    now WHERE id = id. *)
Definition clearConversationMessages (now : Z) (conversationId : Z) (d : Database)
  : Database :=
  {| users := users d;
     conversations :=
       List.map (λ c, if decide (Conversation.id c = conversationId)
                      then Conversation.set_lastClearedAt (Some now) c else c)
                (conversations d);
     messages :=
       List.filter (λ m, negb (bool_decide (Message.conversationId m = conversationId)))
                   (messages d);
     messages_id_seq := messages_id_seq d |}.

(** The row [addMessage] inserts: the serial id, the column defaults
    'text' and true where the caller left the property out, and [created],
    the database's own now(), as [createdAt]. *)
Definition inserted_row (created : Z) (d : Database) (ins : InsertMessage.t)
  : Message.t :=
  {| Message.id := messages_id_seq d;
     Message.conversationId := InsertMessage.conversationId ins;
     Message.senderId := InsertMessage.senderId ins;
     Message.content := InsertMessage.content ins;
     Message.messageType := or_default "text" (InsertMessage.messageType ins);
     Message.encrypted := or_default true (InsertMessage.encrypted ins);
     Message.createdAt := Some created |}.

(** The foreign keys of the messages table. *)
Definition references_ok (d : Database) (ins : InsertMessage.t) : bool :=
  bool_decide (InsertMessage.conversationId ins ∈ Conversation.id <$> conversations d)
  && bool_decide (InsertMessage.senderId ins ∈ users d).

(** [addMessage]: INSERT ... RETURNING, then bump the conversation's
    [lastMessageAt].  Two clocks are read: [created] is now() of the
    database, which stamps the row; [now] is [new Date()] of the server,
    which stamps the conversation.  [None] is the rejected insert (the
    promise rejects); the sequence value it drew is consumed all the
    same. *)
Definition addMessage (created now : Z) (ins : InsertMessage.t) (d : Database)
  : option Message.t * Database :=
  if references_ok d ins then
    let row := inserted_row created d ins in
    (Some row,
     {| users := users d;
        conversations :=
          List.map (λ c, if decide (Conversation.id c = InsertMessage.conversationId ins)
                         then Conversation.set_lastMessageAt (Some now) c else c)
                   (conversations d);
        messages := messages d ++ [row];
        messages_id_seq := (messages_id_seq d + 1)%Z |})
  else
    (None,
     {| users := users d; conversations := conversations d;
        messages := messages d;
        messages_id_seq := (messages_id_seq d + 1)%Z |}).

(** Modelled from the spec: the retention sweep.  The sources contain the
    query and the clear operation but no caller that runs them on a timer;
    the written specification describes it as: enumerate the conversations,
    keep those the classifier finds due, and for each of them delete its
    messages and set [lastClearedAt] to [now], leaving [lastMessageAt] and
    the policy as they are. *)
Definition sweep (now : Z) (d : Database) : Database :=
  foldl (λ acc c, clearConversationMessages now (Conversation.id c) acc)
        d (getConversationsToClean now d).

(** The messages a conversation owns. *)
Definition messages_of (conversationId : Z) (d : Database) : list Message.t :=
  List.filter (λ m, bool_decide (Message.conversationId m = conversationId)) (messages d).

(** The rows of the messages table that a transition from [before] to
    [after] removed, for one conversation. *)
Definition deleted_of (conversationId : Z) (before after : Database) : list Message.t :=
  List.filter (λ m, negb (bool_decide (m ∈ messages after)))
              (messages_of conversationId before).

(* --------------------------------------------------------------------- *)
(*  Server state and the effects of handler code                         *)
(* --------------------------------------------------------------------- *)

(** What the server writes with [console.log] / [console.error]. *)
Inductive LogLine : Type :=
  | LogNewConnection
  | LogUserConnected (userId : string)
  | LogHandling (type : option string) (from : option string) (target : option string)
  | LogForwarded (target : option string)
  | LogTargetNotConnected (target : option string)
  | LogConnectedClients (keys : list string)
  | LogInvalidMessage (userId : option string) (target : option string)
  | LogMessageError
  | LogUserDisconnected (userId : string)
  | LogSocketError
  | LogSendingMessageError.

(** The process state.  [sockets] is the heap of socket objects, a socket
    being named by a number; [connectedClients] holds such names, so two
    entries (or an entry and a handler closure) may denote the same
    object.  [wire] lists, oldest first, every frame a socket's [send]
    accepted, with the socket it was written to. *)
Record Server : Type := mkServer {
  sockets : nat → Ws.t;
  next_socket : nat;
  connectedClients : JsMap.t nat;
  wire : list (nat * Msg.t);
  console : list LogLine;
  db : Database;
}.

Definition upd_socket (c : nat) (f : Ws.t → Ws.t) (s : Server) : Server :=
  {| sockets := λ i, if decide (i = c) then f (sockets s i) else sockets s i;
     next_socket := next_socket s;
     connectedClients := connectedClients s;
     wire := wire s; console := console s; db := db s |}.

Definition upd_clients (f : JsMap.t nat → JsMap.t nat) (s : Server) : Server :=
  {| sockets := sockets s; next_socket := next_socket s;
     connectedClients := f (connectedClients s);
     wire := wire s; console := console s; db := db s |}.

Definition upd_wire (f : list (nat * Msg.t) → list (nat * Msg.t)) (s : Server) : Server :=
  {| sockets := sockets s; next_socket := next_socket s;
     connectedClients := connectedClients s;
     wire := f (wire s); console := console s; db := db s |}.

Definition upd_console (f : list LogLine → list LogLine) (s : Server) : Server :=
  {| sockets := sockets s; next_socket := next_socket s;
     connectedClients := connectedClients s;
     wire := wire s; console := f (console s); db := db s |}.

Definition upd_db (f : Database → Database) (s : Server) : Server :=
  {| sockets := sockets s; next_socket := next_socket s;
     connectedClients := connectedClients s;
     wire := wire s; console := console s; db := f (db s) |}.

(** How a piece of handler code completes. *)
Inductive completion (A : Type) : Type :=
  | Return (a : A)
  | Throw.
Arguments Return {A} a.
Arguments Throw {A}.

(** Handler code: it reads and writes the process state and either
    returns or throws; what it wrote before throwing stays written. *)
Definition M (A : Type) : Type := Server → completion A * Server.

Global Instance M_ret : MRet M := λ A a s, (Return a, s).

Global Instance M_bind : MBind M := λ A B k m s,
  match m s with
  | (Return a, s') => k a s'
  | (Throw, s') => (Throw, s')
  end.

Definition throw {A : Type} : M A := λ s, (Throw, s).

(** [try { body } catch (error) { handler }] *)
Definition try_catch {A : Type} (body : M A) (handler : M A) : M A := λ s,
  match body s with
  | (Return a, s') => (Return a, s')
  | (Throw, s') => handler s'
  end.

Definition gets {A : Type} (f : Server → A) : M A := λ s, (Return (f s), s).

Definition modify (f : Server → Server) : M unit := λ s, (Return (), f s).

Definition console_log (l : LogLine) : M unit :=
  modify (upd_console (λ ls, ls ++ [l])).

(** [ws.send(JSON.stringify(payload))] *)
Definition ws_send (ws : nat) (payload : Msg.t) : M unit := λ s,
  if Ws.sendThrows (sockets s ws) then (Throw, s)
  else (Return (), upd_wire (λ w, w ++ [(ws, payload)]) s).

(** [JSON.parse(message.toString())]: [None] stands for a text that is not
    JSON (or parses to [null], on which the first property access throws). *)
Definition JSON_parse (raw : option Msg.t) : M Msg.t :=
  match raw with
  | Some data => mret data
  | None => throw
  end.

(* --------------------------------------------------------------------- *)
(*  registerRoutes: the WebSocket handlers and broadcastMessage           *)
(* --------------------------------------------------------------------- *)

(** The body shared by the two authentication branches:
    [ws.userId = data.userId; connectedClients.set(data.userId, ws)].
    Both branches are guarded by [data.userId] being truthy, so the
    [None] case is never reached. *)
Definition bind_identity (ws : nat) (userId : option string) : M unit :=
  match userId with
  | Some uid =>
      modify (upd_socket ws (Ws.set_userId (Some uid)));;
      modify (upd_clients (JsMap.set uid ws));;
      console_log (LogUserConnected uid)
  | None => mret ()
  end.

Definition target_not_connected (target : option string) : M unit :=
  console_log (LogTargetNotConnected target);;
  keys ← gets (λ s, JsMap.keys (connectedClients s));
  console_log (LogConnectedClients keys).

(** The branch of the message handler under the comment "Handle signaling
    messages": the [if (ws.userId && data.target)] statement. *)
Definition handle_signaling (ws : nat) (data : Msg.t) : M unit :=
  self ← gets (λ s, sockets s ws);
  if truthy (Ws.userId self) && truthy (Msg.target data) then
    console_log (LogHandling (Msg.type data) (Ws.userId self) (Msg.target data));;
    targetWs ← gets (λ s, Msg.target data ≫= λ t, JsMap.get t (connectedClients s));
    match targetWs with
    | Some tws =>
        peer ← gets (λ s, sockets s tws);
        if decide (Ws.readyState peer = OPEN) then
          ws_send tws (Msg.with_from (Ws.userId self) data);;
          console_log (LogForwarded (Msg.target data))
        else target_not_connected (Msg.target data)
    | None => target_not_connected (Msg.target data)
    end
  else
    console_log (LogInvalidMessage (Ws.userId self) (Msg.target data)).

(** [ws.on('message', ...)] for the socket [ws]. *)
Definition on_message (ws : nat) (raw : option Msg.t) : M unit :=
  try_catch
    (data ← JSON_parse raw;
     if truthy (Msg.userId data) && negb (truthy (Msg.type data)) then
       bind_identity ws (Msg.userId data)
     else if bool_decide (Msg.type data = Some "auth") && truthy (Msg.userId data) then
       bind_identity ws (Msg.userId data)
     else
       handle_signaling ws data)
    (console_log LogMessageError).

(** [ws.on('close', ...)] for the socket [ws]. *)
Definition on_close (ws : nat) : M unit :=
  self ← gets (λ s, sockets s ws);
  if truthy (Ws.userId self) then
    match Ws.userId self with
    | Some uid =>
        modify (upd_clients (JsMap.delete uid));;
        console_log (LogUserDisconnected uid)
    | None => mret ()
    end
  else mret ().

(** [ws.on('error', ...)] for the socket [ws]. *)
Definition on_error (ws : nat) : M unit :=
  console_log LogSocketError.

(** [Map.prototype.forEach] with a callback that only reads the value. *)
Fixpoint forEach (f : nat → M unit) (entries : JsMap.t nat) : M unit :=
  match entries with
  | [] => mret ()
  | (_, v) :: rest => f v;; forEach f rest
  end.

(** The arrow function [broadcastMessage] passes to [forEach]. *)
Definition send_if_open (conversationId : Z) (message : Msg.t) (ws : nat) : M unit :=
  sock ← gets (λ s, sockets s ws);
  if decide (Ws.readyState sock = OPEN) then
    ws_send ws (Msg.broadcast_of conversationId message)
  else mret ().

Definition broadcastMessage (conversationId : Z) (message : Msg.t) : M unit :=
  entries ← gets connectedClients;
  forEach (send_if_open conversationId message) entries.

(** The event the message route broadcasts for a stored row. *)
Definition new_message_event (row : Message.t) : Msg.t :=
  {| Msg.type := Some "new-message"; Msg.target := None;
     Msg.data := Some (Message.to_json row);
     Msg.conversationId := None; Msg.userId := None; Msg.from := None |}.

(** What a route answers. *)
Inductive Response : Type :=
  | Json (status : nat) (body : json)
  | Failure (status : nat) (message : string).

(** [await storage.addMessage(messageData)]: a rejected promise is an
    exception at the [await]. *)
Definition storage_addMessage (created now : Z) (ins : InsertMessage.t)
  : M Message.t :=
  λ s,
    let '(r, d) := addMessage created now ins (db s) in
    (match r with Some row => Return row | None => Throw end, upd_db (λ _, d) s).

(** POST /api/conversations/:id/messages, from the point where the body
    has been validated into an [InsertMessage]. *)
Definition post_message (created now : Z) (ins : InsertMessage.t) : M Response :=
  try_catch
    (message ← storage_addMessage created now ins;
     broadcastMessage (InsertMessage.conversationId ins) (new_message_event message);;
     mret (Json 200 (Message.to_json message)))
    (console_log LogSendingMessageError;;
     mret (Failure 500 "Failed to send message")).

(* --------------------------------------------------------------------- *)
(*  The server as a transition system                                    *)
(* --------------------------------------------------------------------- *)

(** What happens to the process from outside.  [EvTransport] is the one
    event the sources do not produce: it makes [send] on an open socket
    throw (or stop throwing), the fault the catch clauses of the handlers
    are written for. *)
Inductive Event : Type :=
  | EvConnection                              (* wss 'connection' *)
  | EvMessage (ws : nat) (raw : option Msg.t) (* ws 'message' *)
  | EvClosing (ws : nat)                      (* the closing handshake starts *)
  | EvClose (ws : nat)                        (* ws 'close' *)
  | EvError (ws : nat)                        (* ws 'error' *)
  | EvTransport (ws : nat) (broken : bool)    (* injected fault *)
  | EvPostMessage (created now : Z) (ins : InsertMessage.t).

Definition exec {A : Type} (m : M A) (s : Server) : Server := (m s).2.

Definition result {A : Type} (m : M A) (s : Server) : completion A := (m s).1.

(** A socket that exists and has not emitted 'close'. *)
Definition live (s : Server) (ws : nat) : bool :=
  bool_decide (ws < next_socket s) &&
  negb (bool_decide (Ws.readyState (sockets s ws) = CLOSED)).

(** [wss.on('connection', ...)]: a new socket object, open and without a
    user, on which the three handlers are installed. *)
Definition on_connection (s : Server) : Server :=
  {| sockets := λ i, if decide (i = next_socket s) then Ws.fresh else sockets s i;
     next_socket := S (next_socket s);
     connectedClients := connectedClients s;
     wire := wire s;
     console := console s ++ [LogNewConnection];
     db := db s |}.

(** The socket reaches CLOSED and then emits 'close'. *)
Definition close_event (ws : nat) : M unit :=
  modify (upd_socket ws (Ws.set_readyState CLOSED));;
  on_close ws.

Definition step (s : Server) (e : Event) : Server :=
  match e with
  | EvConnection => on_connection s
  | EvMessage ws raw => if live s ws then exec (on_message ws raw) s else s
  | EvClosing ws =>
      if live s ws then upd_socket ws (Ws.set_readyState CLOSING) s else s
  | EvClose ws => if live s ws then exec (close_event ws) s else s
  | EvError ws => if live s ws then exec (on_error ws) s else s
  | EvTransport ws broken =>
      if live s ws then upd_socket ws (Ws.set_sendThrows broken) s else s
  | EvPostMessage created now ins => exec (post_message created now ins) s
  end.

Definition run (history : list Event) (s : Server) : Server :=
  foldl step s history.

(** The process right after [registerRoutes]: no socket, an empty map. *)
Definition init (d : Database) : Server :=
  {| sockets := λ _, Ws.fresh; next_socket := 0;
     connectedClients := JsMap.empty; wire := []; console := []; db := d |}.

(* --------------------------------------------------------------------- *)
(*  Vocabulary of the statements                                         *)
(* --------------------------------------------------------------------- *)

(** The frames the handler takes as authentication: a truthy [userId]
    with a falsy [type], or [type === 'auth'] with a truthy [userId]. *)
Definition is_auth (data : Msg.t) : bool :=
  truthy (Msg.userId data) &&
  (negb (truthy (Msg.type data)) || bool_decide (Msg.type data = Some "auth")).

(** An authentication frame that declares the identity [u]. *)
Definition auth_for (u : string) (data : Msg.t) : Prop :=
  Msg.userId data = Some u ∧ u ≠ "" ∧ is_auth data = true.

(** The frame a client sends when its socket opens. *)
Definition auth_frame (u : string) : Msg.t :=
  {| Msg.type := Some "auth"; Msg.target := None; Msg.data := None;
     Msg.conversationId := None; Msg.userId := Some u; Msg.from := None |}.

(** Among the sockets [vs], those that are open, in order. *)
Definition open_among (s : Server) (vs : list nat) : list nat :=
  List.filter (λ ws, bool_decide (Ws.readyState (sockets s ws) = OPEN)) vs.

(** The sockets [forEach] finds open, in the order it visits them. *)
Definition open_clients (s : Server) : list nat :=
  open_among s (JsMap.values (connectedClients s)).

(** The state once the given frames have been written, in order. *)
Definition written (frames : list (nat * Msg.t)) (s : Server) : Server :=
  upd_wire (λ w, w ++ frames) s.

(** One copy of a frame for each of the given sockets. *)
Definition copies (frame : Msg.t) (vs : list nat) : list (nat * Msg.t) :=
  (λ ws, (ws, frame)) <$> vs.

Definition accepts (s : Server) (ws : nat) : Prop :=
  Ws.sendThrows (sockets s ws) = false.



(** The policy-to-threshold table, in milliseconds; 'never', NULL and
    any other text have no threshold. *)
Definition retention_threshold (policy : option string) : option Z :=
  match policy with
  | Some p =>
      if decide (p = "24h") then Some (24 * 60 * 60 * 1000)%Z
      else if decide (p = "1week") then Some (7 * 24 * 60 * 60 * 1000)%Z
      else if decide (p = "30days") then Some (30 * 24 * 60 * 60 * 1000)%Z
      else None
  | None => None
  end.

(** The classifier as the specification words it: due iff the policy is
    not 'never' and [now - lastActivity ≥ threshold]. *)
Definition spec_isDue (c : Conversation.t) (now : Z) : Prop :=
  Conversation.autoClearAfter c ≠ Some "never" ∧
  ∃ th last, retention_threshold (Conversation.autoClearAfter c) = Some th ∧
             Conversation.lastMessageAt c = Some last ∧ (now - last >= th)%Z.

(** The classifier as the query computes it: strictly older than the
    threshold. *)
Definition strictly_overdue (c : Conversation.t) (now : Z) : Prop :=
  ∃ th last, retention_threshold (Conversation.autoClearAfter c) = Some th ∧
             Conversation.lastMessageAt c = Some last ∧ (now - last > th)%Z.

(** [updateConversationClearSettings] on one row: SET auto_clear_after. *)
Definition set_autoClearAfter (policy : option string) (c : Conversation.t)
  : Conversation.t :=
  {| Conversation.id := Conversation.id c;
     Conversation.participant1Id := Conversation.participant1Id c;
     Conversation.participant2Id := Conversation.participant2Id c;
     Conversation.lastMessageAt := Conversation.lastMessageAt c;
     Conversation.createdAt := Conversation.createdAt c;
     Conversation.autoClearAfter := policy;
     Conversation.lastClearedAt := Conversation.lastClearedAt c |}.

(* --------------------------------------------------------------------- *)
(*  Concrete data used by the examples                                   *)
(* --------------------------------------------------------------------- *)

(** A conversation between u1 and u2, policy '24h', last active at the
    epoch, with two messages. *)
Definition conv_24h : Conversation.t :=
  {| Conversation.id := 1; Conversation.participant1Id := "u1";
     Conversation.participant2Id := "u2";
     Conversation.lastMessageAt := Some 0%Z; Conversation.createdAt := Some 0%Z;
     Conversation.autoClearAfter := Some "24h";
     Conversation.lastClearedAt := None |}.

Definition hello (n : Z) : Message.t :=
  {| Message.id := n; Message.conversationId := 1; Message.senderId := "u1";
     Message.content := "hello"; Message.messageType := Some "text";
     Message.encrypted := Some true; Message.createdAt := Some 0%Z |}.

Definition small_db : Database :=
  {| users := ["u1"; "u2"; "u3"]; conversations := [conv_24h];
     messages := [hello 1; hello 2]; messages_id_seq := 3 |}.

(** One day in milliseconds, and 25 hours. *)
Definition one_day : Z := 86400000.
Definition hours_25 : Z := 90000000.

(** Two clients on a fresh server: socket 0 authenticates as u1, then
    socket 1 as u2. *)
Definition two_clients : Server :=
  run [EvConnection; EvConnection;
       EvMessage 0 (Some (auth_frame "u1"));
       EvMessage 1 (Some (auth_frame "u2"))]
      (init small_db).

(** A frame of the given type for the given target, with a payload and a
    conversation reference. *)
Definition frame_to (ty : string) (T : string) : Msg.t :=
  {| Msg.type := Some ty; Msg.target := Some T;
     Msg.data := Some (JObj [("sdp", JStr "v=0")]);
     Msg.conversationId := Some 1%Z; Msg.userId := None; Msg.from := None |}.

(** A frame with a type and nothing else. *)
Definition bare_frame (ty : string) : Msg.t :=
  {| Msg.type := Some ty; Msg.target := None; Msg.data := None;
     Msg.conversationId := None; Msg.userId := None; Msg.from := None |}.

(** The two clients, with a throwing [send] injected on u1's socket. *)
Definition one_broken : Server := step two_clients (EvTransport 0 true).

(** u3 posts "hi" to conversation 1. *)
Definition hi_from_u3 : InsertMessage.t :=
  {| InsertMessage.conversationId := 1; InsertMessage.senderId := "u3";
     InsertMessage.content := "hi"; InsertMessage.messageType := Undefined;
     InsertMessage.encrypted := Undefined |}.

(** Three sockets: u1's has closed without being removed from the map
    (it re-authenticated as u0 before closing), u2's and u3's are open. *)
Definition one_closed : Server :=
  run [EvConnection; EvConnection; EvConnection;
       EvMessage 0 (Some (auth_frame "u1"));
       EvMessage 1 (Some (auth_frame "u2"));
       EvMessage 2 (Some (auth_frame "u3"));
       EvMessage 0 (Some (auth_frame "u0"));
       EvClose 0]
      (init small_db).

(* --------------------------------------------------------------------- *)
(*  DatabaseStorage: conversations and their settings                    *)
(* --------------------------------------------------------------------- *)

(** The store with the serial counter of the conversations table, which
    the retention code never draws from. *)
Record Store : Type := mkStore {
  tables : Database;
  conversations_id_seq : Z;
}.

(** The WHERE clause of [getOrCreateConversation]: the row joins the two
    participants, in either order.  Both columns are NOT NULL. *)
Definition between (participant1Id participant2Id : string) (c : Conversation.t) : bool :=
  (bool_decide (Conversation.participant1Id c = participant1Id)
   && bool_decide (Conversation.participant2Id c = participant2Id))
  || (bool_decide (Conversation.participant1Id c = participant2Id)
      && bool_decide (Conversation.participant2Id c = participant1Id)).

(** The row an INSERT of the two participants creates: the serial id and
    the column defaults (now(), now(), 'never', NULL). *)
Definition new_conversation (now : Z) (id : Z) (participant1Id participant2Id : string)
  : Conversation.t :=
  {| Conversation.id := id;
     Conversation.participant1Id := participant1Id;
     Conversation.participant2Id := participant2Id;
     Conversation.lastMessageAt := Some now;
     Conversation.createdAt := Some now;
     Conversation.autoClearAfter := Some "never";
     Conversation.lastClearedAt := None |}.

Definition with_conversations (cs : list Conversation.t) (d : Database) : Database :=
  {| users := users d; conversations := cs; messages := messages d;
     messages_id_seq := messages_id_seq d |}.

(** [getOrCreateConversation]: the first row joining the two participants
    if there is one; otherwise a new row.  [None] is the insert rejected by
    a foreign key, which consumes the sequence value it drew. *)
Definition getOrCreateConversation
    (now : Z) (participant1Id participant2Id : string) (st : Store)
  : option Conversation.t * Store :=
  match List.filter (between participant1Id participant2Id)
                    (conversations (tables st)) with
  | existingConversation :: _ => (Some existingConversation, st)
  | [] =>
      if bool_decide (participant1Id ∈ users (tables st))
         && bool_decide (participant2Id ∈ users (tables st))
      then
        let newConversation :=
          new_conversation now (conversations_id_seq st) participant1Id participant2Id in
        (Some newConversation,
         {| tables := with_conversations
                        (conversations (tables st) ++ [newConversation]) (tables st);
            conversations_id_seq := (conversations_id_seq st + 1)%Z |})
      else
        (None,
         {| tables := tables st;
            conversations_id_seq := (conversations_id_seq st + 1)%Z |})
  end.

(** The two statements of [getOrCreateConversation], each awaited on its
    own.  No transaction joins them, and the table has no unique
    constraint on the pair of participants. *)
Definition select_conversation (participant1Id participant2Id : string) (st : Store)
  : option Conversation.t :=
  head (List.filter (between participant1Id participant2Id)
                    (conversations (tables st))).

Definition insert_conversation
    (now : Z) (participant1Id participant2Id : string) (st : Store)
  : option Conversation.t * Store :=
  if bool_decide (participant1Id ∈ users (tables st))
     && bool_decide (participant2Id ∈ users (tables st))
  then
    let newConversation :=
      new_conversation now (conversations_id_seq st) participant1Id participant2Id in
    (Some newConversation,
     {| tables := with_conversations
                    (conversations (tables st) ++ [newConversation]) (tables st);
        conversations_id_seq := (conversations_id_seq st + 1)%Z |})
  else
    (None,
     {| tables := tables st;
        conversations_id_seq := (conversations_id_seq st + 1)%Z |}).

(** What a call of [getOrCreateConversation] does after its SELECT has
    been answered with [existingConversation]. *)
Definition create_unless_found
    (existingConversation : option Conversation.t)
    (now : Z) (participant1Id participant2Id : string) (st : Store)
  : option Conversation.t * Store :=
  match existingConversation with
  | Some conversation => (Some conversation, st)
  | None => insert_conversation now participant1Id participant2Id st
  end.

(** Two calls of [getOrCreateConversation] in flight at once, for two
    requests the server handles concurrently: each [await] hands control
    back to the event loop, so the SELECT of the second call can be
    answered before the INSERT of the first is issued.  The result is what
    the two calls return and the store they leave. *)
Definition racing_getOrCreateConversation
    (now1 : Z) (a1 b1 : string) (now2 : Z) (a2 b2 : string) (st : Store)
  : option Conversation.t * option Conversation.t * Store :=
  let existing1 := select_conversation a1 b1 st in
  let existing2 := select_conversation a2 b2 st in
  let '(r1, st1) := create_unless_found existing1 now1 a1 b1 st in
  let '(r2, st2) := create_unless_found existing2 now2 a2 b2 st1 in
  (r1, r2, st2).

(** The range of an [integer] column. *)
Definition int4 (n : Z) : bool :=
  bool_decide (-2147483648 ≤ n ≤ 2147483647)%Z.

(** How a promise of the storage layer settles. *)
Inductive Settled (A : Type) : Type :=
  | Fulfilled (value : A)
  | Rejected.
Arguments Fulfilled {A} value.
Arguments Rejected {A}.

(** [updateConversationClearSettings]: UPDATE ... SET auto_clear_after
    WHERE id = conversationId RETURNING *, of which the first row (if any)
    is returned.  [conversationId] is the number the route got from
    [parseInt]: [None] is NaN (or an infinity).  The database refuses a
    parameter that is not an integer of the column's range, and the
    promise rejects without a write. *)
Definition updateConversationClearSettings
    (conversationId : option Z) (autoClearAfter : string) (d : Database)
  : Settled (option Conversation.t) * Database :=
  match conversationId with
  | Some id =>
      if int4 id then
        let updated :=
          List.map (λ c, if decide (Conversation.id c = id)
                         then set_autoClearAfter (Some autoClearAfter) c else c)
                   (conversations d) in
        (Fulfilled
           (head (List.filter (λ c, bool_decide (Conversation.id c = id)) updated)),
         with_conversations updated d)
      else (Rejected, d)
  | None => (Rejected, d)
  end.

(** The values the settings route accepts. *)
Definition clear_settings : list string := ["24h"; "1week"; "30days"; "never"].

(** What a route of the REST interface answers: a JSON body with status
    200, or a status with a message. *)
Inductive Reply (A : Type) : Type :=
  | Sent (body : A)
  | Refused (status : nat) (message : string).
Arguments Sent {A} body.
Arguments Refused {A} status message.

(** PUT /api/conversations/:id/clear-settings, with
    [parseInt(req.params.id)] ([None] when it is not a finite number) and
    the [autoClearAfter] property of the request body ([None] when the body
    has none, or one that is not a string).  A rejected update is caught by
    the route's catch clause. *)
Definition put_clear_settings
    (conversationId : option Z) (autoClearAfter : option string) (d : Database)
  : Reply Conversation.t * Database :=
  match autoClearAfter with
  | Some setting =>
      if bool_decide (setting ∈ clear_settings) then
        match updateConversationClearSettings conversationId setting d with
        | (Fulfilled (Some conversation), d') => (Sent conversation, d')
        | (Fulfilled None, d') => (Refused 404 "Conversation not found", d')
        | (Rejected, d') => (Refused 500 "Failed to update settings", d')
        end
      else (Refused 400 "Invalid auto clear setting", d)
  | None => (Refused 400 "Invalid auto clear setting", d)
  end.

(** POST /api/conversations for the signed-in [userId], with the
    [participantId] property of the request body. *)
Definition post_conversation
    (now : Z) (userId : string) (participantId : option string) (st : Store)
  : Reply Conversation.t * Store :=
  if negb (truthy participantId) then
    (Refused 400 "Participant ID is required", st)
  else
    match participantId with
    | Some p =>
        match getOrCreateConversation now userId p st with
        | (Some conversation, st') => (Sent conversation, st')
        | (None, st') => (Refused 500 "Failed to create conversation", st')
        end
    | None => (Refused 400 "Participant ID is required", st)
    end.

(** [upsertUser], as far as the users table is modelled: the id is
    present afterwards. *)
Definition upsertUser (id : string) (d : Database) : Database :=
  {| users := if bool_decide (id ∈ users d) then users d else users d ++ [id];
     conversations := conversations d; messages := messages d;
     messages_id_seq := messages_id_seq d |}.

(** The calls that write to the store. *)
Inductive StoreOp : Type :=
  | OpUpsertUser (id : string)
  | OpPostConversation (now : Z) (userId : string) (participantId : option string)
  | OpAddMessage (created now : Z) (ins : InsertMessage.t)
  | OpPutClearSettings (conversationId : option Z) (autoClearAfter : option string)
  | OpDeleteMessages (now : Z) (conversationId : Z).

Definition with_tables (d : Database) (st : Store) : Store :=
  {| tables := d; conversations_id_seq := conversations_id_seq st |}.

Definition apply_op (st : Store) (op : StoreOp) : Store :=
  match op with
  | OpUpsertUser id => with_tables (upsertUser id (tables st)) st
  | OpPostConversation now userId participantId =>
      (post_conversation now userId participantId st).2
  | OpAddMessage created now ins =>
      with_tables (addMessage created now ins (tables st)).2 st
  | OpPutClearSettings conversationId autoClearAfter =>
      with_tables (put_clear_settings conversationId autoClearAfter (tables st)).2 st
  | OpDeleteMessages now conversationId =>
      with_tables (clearConversationMessages now conversationId (tables st)) st
  end.

(** An empty store whose sequences start at 1. *)
Definition empty_store : Store :=
  {| tables := {| users := []; conversations := []; messages := [];
                  messages_id_seq := 1 |};
     conversations_id_seq := 1 |}.

Definition store_after (ops : list StoreOp) : Store := foldl apply_op empty_store ops.

(** What every store reached from the empty one satisfies. *)
Record store_ok (st : Store) : Prop := mk_store_ok {
  ok_conversation_ids : NoDup (Conversation.id <$> conversations (tables st));
  ok_conversation_seq :
    Forall (λ c, (Conversation.id c < conversations_id_seq st)%Z)
           (conversations (tables st));
  ok_message_ids : NoDup (Message.id <$> messages (tables st));
  ok_message_seq :
    Forall (λ m, (Message.id m < messages_id_seq (tables st))%Z)
           (messages (tables st));
  ok_settings :
    Forall (λ c, ∃ p, Conversation.autoClearAfter c = Some p ∧ p ∈ clear_settings)
           (conversations (tables st));
  ok_activity :
    Forall (λ c, is_Some (Conversation.lastMessageAt c)) (conversations (tables st));
  ok_participants :
    Forall (λ c, Conversation.participant1Id c ∈ users (tables st)
                 ∧ Conversation.participant2Id c ∈ users (tables st))
           (conversations (tables st));
  ok_message_refs :
    Forall (λ m, Message.conversationId m
                   ∈ Conversation.id <$> conversations (tables st)
                 ∧ Message.senderId m ∈ users (tables st))
           (messages (tables st));
}.

(** A rewrite of conversation rows that keeps what identifies them. *)
Definition keeps_keys (f : Conversation.t → Conversation.t) : Prop :=
  ∀ c, Conversation.id (f c) = Conversation.id c
       ∧ Conversation.participant1Id (f c) = Conversation.participant1Id c
       ∧ Conversation.participant2Id (f c) = Conversation.participant2Id c.

(** A conversation row whose setting is one of the four accepted values. *)
Definition setting_ok (c : Conversation.t) : Prop :=
  ∃ p, Conversation.autoClearAfter c = Some p ∧ p ∈ clear_settings.

(** A store with the three users and the '24h' conversation of the
    examples; the next conversation id is 2. *)
Definition small_store : Store :=
  {| tables := small_db; conversations_id_seq := 2 |}.

(** A store with users and nothing else. *)
Definition users_only : Store :=
  store_after [OpUpsertUser "u1"; OpUpsertUser "u2"; OpUpsertUser "u3"].

(** What the relay state satisfies after every history: the entries of
    the connection map name connected sockets that carry an identity, under
    non-empty keys; and an entry whose key is the current identity of its
    socket names a socket that has not closed. *)
Record relay_ok (s : Server) : Prop := mk_relay_ok {
  ok_entries :
    ∀ k ws, (k, ws) ∈ connectedClients s →
            k ≠ "" ∧ ws < next_socket s
            ∧ truthy (Ws.userId (sockets s ws)) = true;
  ok_current :
    ∀ k ws, JsMap.get k (connectedClients s) = Some ws →
            Ws.userId (sockets s ws) = Some k →
            Ws.readyState (sockets s ws) ≠ CLOSED;
}.

(** One socket that authenticated twice, as u1 and then as u5, and a
    second socket for u2. *)
Definition two_names : Server :=
  run [EvConnection; EvConnection;
       EvMessage 0 (Some (auth_frame "u1"));
       EvMessage 1 (Some (auth_frame "u2"));
       EvMessage 0 (Some (auth_frame "u5"))]
      (init small_db).

(** The number of entries of the connection map that name a socket. *)
Definition registrations (ws : nat) (m : JsMap.t nat) : nat :=
  length (List.filter (λ e, bool_decide (e.2 = ws)) m).

(** The number of frames of a list that were written to a socket. *)
Definition frames_to (ws : nat) (frames : list (nat * Msg.t)) : nat :=
  length (List.filter (λ e, bool_decide (e.1 = ws)) frames).

(* --------------------------------------------------------------------- *)
(*  The client: useWebSocket, the call dialogs and the Home page         *)
(* --------------------------------------------------------------------- *)

From stdpp Require pretty.

(** The state of the [useWebSocket] hook that decides reconnection.
    [reconnectTimeout] is the delay of the pending reconnect timer, if one
    is pending. *)
Module Hook.
Record t : Type := mk {
  isConnected : bool;
  error : option string;
  reconnectAttempts : nat;
  reconnectTimeout : option Z;
}.
End Hook.

Definition maxReconnectAttempts : nat := 5.

(** [Math.min(1000 * Math.pow(2, attempts), 30000)] *)
Definition reconnect_delay (attempts : nat) : Z :=
  Z.min (1000 * 2 ^ Z.of_nat attempts)%Z 30000%Z.

(** [ws.onopen]; the hook also sends [auth_frame user.id] here. *)
Definition ws_onopen (h : Hook.t) : Hook.t :=
  {| Hook.isConnected := true; Hook.error := None;
     Hook.reconnectAttempts := 0;
     Hook.reconnectTimeout := Hook.reconnectTimeout h |}.

(** [ws.onclose] with the close code of the event. *)
Definition ws_onclose (code : Z) (h : Hook.t) : Hook.t :=
  if negb (bool_decide (code = 1000%Z))
     && bool_decide (Hook.reconnectAttempts h < maxReconnectAttempts)
  then
    {| Hook.isConnected := false; Hook.error := Hook.error h;
       Hook.reconnectAttempts := Hook.reconnectAttempts h;
       Hook.reconnectTimeout := Some (reconnect_delay (Hook.reconnectAttempts h)) |}
  else if bool_decide (maxReconnectAttempts ≤ Hook.reconnectAttempts h) then
    {| Hook.isConnected := false;
       Hook.error := Some "Connection lost. Please refresh the page to reconnect.";
       Hook.reconnectAttempts := Hook.reconnectAttempts h;
       Hook.reconnectTimeout := Hook.reconnectTimeout h |}
  else
    {| Hook.isConnected := false; Hook.error := Hook.error h;
       Hook.reconnectAttempts := Hook.reconnectAttempts h;
       Hook.reconnectTimeout := Hook.reconnectTimeout h |}.

(** The reconnect timer fires: [reconnectAttemptsRef.current++; connect()]. *)
Definition reconnect_timer (h : Hook.t) : Hook.t :=
  {| Hook.isConnected := Hook.isConnected h; Hook.error := Hook.error h;
     Hook.reconnectAttempts := S (Hook.reconnectAttempts h);
     Hook.reconnectTimeout := None |}.

(** A run of closes with no successful open in between: each close that
    schedules a reconnect is followed by its timer and, when the new socket
    fails, by the next close of the list; a close that schedules nothing
    ends the run.  The result is the delays scheduled, with the final
    state of the hook. *)
Fixpoint failed_reconnects (codes : list Z) (h : Hook.t) : list Z * Hook.t :=
  match codes with
  | [] => ([], h)
  | code :: rest =>
      let h1 := ws_onclose code h in
      match Hook.reconnectTimeout h1 with
      | Some delay =>
          let '(delays, h2) := failed_reconnects rest (reconnect_timer h1) in
          (delay :: delays, h2)
      | None => ([], h1)
      end
  end.

(** The hook when its first socket has just opened. *)
Definition hook_connected : Hook.t :=
  {| Hook.isConnected := true; Hook.error := None;
     Hook.reconnectAttempts := 0; Hook.reconnectTimeout := None |}.

(** Truthiness of a [number | null] value that holds an integer. *)
Definition truthy_number (v : option Z) : bool :=
  match v with
  | Some n => negb (bool_decide (n = 0%Z))
  | None => false
  end.

Inductive CallType : Type := voice | video.

Definition callType_json (t : CallType) : json :=
  JObj [("callType", JStr (match t with voice => "voice" | video => "video" end))].

(** The frame [initiateCall] sends for an outgoing call (CallModal for
    voice, VideoCallModal for video), when the conversation and the other
    user are known. *)
Definition call_start_frame
    (t : CallType) (conversationId : option Z) (targetUserId : option string)
  : option Msg.t :=
  if truthy_number conversationId && truthy targetUserId then
    Some {| Msg.type := Some "call-start"; Msg.target := targetUserId;
            Msg.data := Some (callType_json t);
            Msg.conversationId := conversationId;
            Msg.userId := None; Msg.from := None |}
  else None.

(** [handleEndCall] of CallModal. *)
Definition voice_call_end_frame
    (conversationId : option Z) (targetUserId : option string) : option Msg.t :=
  if truthy_number conversationId && truthy targetUserId then
    Some {| Msg.type := Some "call-end"; Msg.target := targetUserId;
            Msg.data := Some (callType_json voice);
            Msg.conversationId := conversationId;
            Msg.userId := None; Msg.from := None |}
  else None.

(** [handleEndCall] of VideoCallModal: the target is
    [conversationId.toString()]. *)
Definition video_call_end_frame (conversationId : option Z) : option Msg.t :=
  if truthy_number conversationId then
    Some {| Msg.type := Some "call-end";
            Msg.target := pretty.pretty <$> conversationId;
            Msg.data := Some (callType_json video);
            Msg.conversationId := None;
            Msg.userId := None; Msg.from := None |}
  else None.

(** [value?.[key]] on a JSON value: the property of an object (the last
    one of that name, as [JSON.parse] keeps it), undefined otherwise. *)
Definition json_prop (key : string) (value : option json) : option json :=
  match value with
  | Some (JObj fields) =>
      snd <$> head (List.filter (λ f, bool_decide (f.1 = key)) (rev fields))
  | _ => None
  end.

Definition is_JStr (s : string) (v : option json) : bool :=
  match v with
  | Some (JStr s') => bool_decide (s' = s)
  | _ => false
  end.

(** The state of the Home page that the WebSocket effect writes, and the
    queries it invalidates. *)
Inductive QueryKey : Type :=
  | ConversationsQuery
  | MessagesQuery (conversationId : option Z).

Module Home.
Record IncomingCall : Type := mkCall {
  type : CallType;
  fromUserId : option string;
  conversationId : option Z;
}.

Record t : Type := mk {
  selectedConversationId : option Z;
  incomingCall : option IncomingCall;
  isCallModalOpen : bool;
  isVideoCallModalOpen : bool;
  invalidated : list QueryKey;
}.
End Home.

(** [lastMessage.conversationId === selectedConversationId] for a
    [number | undefined] and a [number | null]. *)
Definition same_conversation (a b : option Z) : bool :=
  match a, b with
  | Some x, Some y => bool_decide (x = y)
  | _, _ => false
  end.

Definition home_invalidate (keys : list QueryKey) (h : Home.t) : Home.t :=
  {| Home.selectedConversationId := Home.selectedConversationId h;
     Home.incomingCall := Home.incomingCall h;
     Home.isCallModalOpen := Home.isCallModalOpen h;
     Home.isVideoCallModalOpen := Home.isVideoCallModalOpen h;
     Home.invalidated := Home.invalidated h ++ keys |}.

Definition home_setIncomingCall (c : option Home.IncomingCall) (h : Home.t) : Home.t :=
  {| Home.selectedConversationId := Home.selectedConversationId h;
     Home.incomingCall := c;
     Home.isCallModalOpen := Home.isCallModalOpen h;
     Home.isVideoCallModalOpen := Home.isVideoCallModalOpen h;
     Home.invalidated := Home.invalidated h |}.

Definition home_closeCallModals (h : Home.t) : Home.t :=
  {| Home.selectedConversationId := Home.selectedConversationId h;
     Home.incomingCall := Home.incomingCall h;
     Home.isCallModalOpen := false;
     Home.isVideoCallModalOpen := false;
     Home.invalidated := Home.invalidated h |}.

(** The body of the effect of the Home page that handles [lastMessage],
    for a frame received from the socket. *)
Definition home_on_message (lastMessage : Msg.t) (h : Home.t) : Home.t :=
  let h1 :=
    if bool_decide (Msg.type lastMessage = Some "new-message")
       || bool_decide (Msg.type lastMessage = Some "broadcast")
    then
      let h0 := home_invalidate [ConversationsQuery] h in
      if same_conversation (Msg.conversationId lastMessage)
                           (Home.selectedConversationId h)
      then home_invalidate [MessagesQuery (Home.selectedConversationId h)] h0
      else h0
    else h in
  let h2 :=
    if bool_decide (Msg.type lastMessage = Some "call-start") then
      let callType :=
        if is_JStr "video" (json_prop "callType" (Msg.data lastMessage))
        then video else voice in
      home_setIncomingCall
        (Some {| Home.type := callType;
                 Home.fromUserId := Msg.from lastMessage;
                 Home.conversationId := Msg.conversationId lastMessage |})
        h1
    else h1 in
  if bool_decide (Msg.type lastMessage = Some "call-end") then
    home_closeCallModals (home_setIncomingCall None h2)
  else h2.

(** A Home page on conversation 1 with an incoming-call dialog from u2
    showing and the video dialog open. *)
Definition home_in_call : Home.t :=
  {| Home.selectedConversationId := Some 1%Z;
     Home.incomingCall :=
       Some {| Home.type := video; Home.fromUserId := Some "u2";
               Home.conversationId := Some 1%Z |};
     Home.isCallModalOpen := false; Home.isVideoCallModalOpen := true;
     Home.invalidated := [] |}.

(* --------------------------------------------------------------------- *)
(*  Retention classifier                                                 *)
(* --------------------------------------------------------------------- *)

Lemma selected_true (w : option bool) : selected w = true ↔ w = Some true.
Proof. destruct w as [[]|]; simpl; split; congruence. Qed.

Lemma isDue_unfold (c : Conversation.t) (now : Z) :
  isDue c now = true ↔
  match Conversation.autoClearAfter c, Conversation.lastMessageAt c with
  | Some p, Some last =>
      (p = "24h" ∧ last < oneDayAgo now)%Z ∨
      (p = "1week" ∧ last < oneWeekAgo now)%Z ∨
      (p = "30days" ∧ last < thirtyDaysAgo now)%Z
  | _, _ => False
  end.
Proof.
  unfold isDue, toClean_where. rewrite selected_true.
  destruct (Conversation.autoClearAfter c) as [p|],
           (Conversation.lastMessageAt c) as [last|]; simpl;
    repeat case_bool_decide; simpl; split; try congruence; try tauto;
      intros; try congruence; subst; intuition congruence.
Qed.

Lemma isDue_strictly_overdue (c : Conversation.t) (now : Z) :
  isDue c now = true ↔ strictly_overdue c now.
Proof.
  rewrite isDue_unfold. unfold strictly_overdue, retention_threshold,
    oneDayAgo, oneWeekAgo, thirtyDaysAgo.
  destruct (Conversation.autoClearAfter c) as [p|],
           (Conversation.lastMessageAt c) as [last|].
  - repeat case_decide; subst; split.
    all: try (intros [[? ?]|[[? ?]|[? ?]]]; try discriminate; try congruence;
              eexists _, _; split_and!; [reflexivity..|lia]).
    all: try (intros [[? ?]|[[? ?]|[? ?]]]; congruence).
    all: try (intros (th & l & Hth & Hl & Hlt); simplify_eq; try lia;
              first [left; split; [done|lia]
                    |right; left; split; [done|lia]
                    |right; right; split; [done|lia]]).
  - split; [tauto|]. intros (th & l & _ & Hl & _). discriminate.
  - split; [tauto|]. intros (th & l & Hth & _). discriminate.
  - split; [tauto|]. intros (th & l & Hth & _). discriminate.
Qed.

(** C1 (as amended).  A conversation is classified as due exactly when its
    policy is one of '24h', '1week', '30days', its last-activity timestamp
    is set, and [now] minus that timestamp is strictly greater than the
    policy's threshold; with the policy 'never' it is not due, whatever
    the elapsed time. *)
Theorem isDue_iff_strictly_overdue (c : Conversation.t) (now : Z) :
  (isDue c now = true ↔ strictly_overdue c now) ∧
  isDue (set_autoClearAfter (Some "never") c) now = false.
Proof.
  split; [apply isDue_strictly_overdue|].
  apply not_true_is_false. rewrite isDue_unfold. simpl.
  destruct (Conversation.lastMessageAt c); [|tauto].
  intros [[? _]|[[? _]|[? _]]]; discriminate.
Qed.

(** C1, the boundary.  Exactly 24 hours after the last activity of a
    '24h' conversation the specification's classifier says due, and the
    query does not select the conversation. *)
Lemma isDue_at_threshold_counterexample :
  spec_isDue conv_24h one_day ∧ isDue conv_24h one_day = false.
Proof.
  split; [|reflexivity].
  split; [discriminate|]. exists one_day, 0%Z. by repeat split.
Qed.

(* --------------------------------------------------------------------- *)
(*  Retention executor                                                   *)
(* --------------------------------------------------------------------- *)

Lemma messages_clear_fold (now : Z) (due : list Conversation.t) (d : Database) :
  messages (foldl (λ acc c, clearConversationMessages now (Conversation.id c) acc) d due)
  = List.filter
      (λ m, negb (bool_decide (Message.conversationId m ∈ Conversation.id <$> due)))
      (messages d).
Proof.
  revert d. induction due as [|c due IH]; intros d.
  - cbn [foldl]. induction (messages d) as [|m ms IHm]; [done|].
    cbn [List.filter]. case_bool_decide as Hin.
    + rewrite fmap_nil in Hin. by apply not_elem_of_nil in Hin.
    + cbn [negb]. by f_equal.
  - cbn [foldl]. rewrite IH. cbn [clearConversationMessages messages]. clear IH.
    induction (messages d) as [|m ms IHm]; [done|].
    rewrite fmap_cons. cbn [List.filter].
    case_bool_decide as H1; cbn [negb List.filter].
    + rewrite IHm. case_bool_decide as H2; [done|].
      exfalso. apply H2. rewrite H1. left.
    + case_bool_decide as H2; case_bool_decide as H3; cbn [negb].
      * apply IHm.
      * exfalso. apply H3. by right.
      * exfalso. apply elem_of_cons in H3 as [?|?]; done.
      * f_equal. apply IHm.
Qed.

Lemma messages_of_sweep_subset (now : Z) (cid : Z) (d : Database) (m : Message.t) :
  In m (messages_of cid (sweep now d)) → In m (messages_of cid d).
Proof.
  unfold messages_of, sweep. rewrite messages_clear_fold.
  rewrite !filter_In. tauto.
Qed.

Lemma messages_of_sweep_due (now : Z) (d : Database) (c : Conversation.t) :
  c ∈ getConversationsToClean now d →
  messages_of (Conversation.id c) (sweep now d) = [].
Proof.
  intros Hc. unfold messages_of, sweep. rewrite messages_clear_fold.
  induction (messages d) as [|m ms IH]; simpl; [done|].
  destruct (decide (Message.conversationId m
                    ∈ Conversation.id <$> getConversationsToClean now d)) as [Hin|Hout].
  - by rewrite (bool_decide_eq_true_2 _ Hin).
  - rewrite (bool_decide_eq_false_2 _ Hout). simpl.
    rewrite bool_decide_eq_false_2; [done|].
    intros Heq. apply Hout. rewrite Heq. by apply list_elem_of_fmap_2.
Qed.

Lemma no_messages_stay_none (now : Z) (cid : Z) (d : Database) :
  messages_of cid d = [] → messages_of cid (sweep now d) = [].
Proof.
  intros Hnone.
  destruct (messages_of cid (sweep now d)) as [|m ms] eqn:E; [done|].
  assert (In m (messages_of cid d)) as Hin
    by (apply (messages_of_sweep_subset now); rewrite E; by left).
  rewrite Hnone in Hin. destruct Hin.
Qed.

Lemma clear_twice_messages (t t' : Z) (cid : Z) (d : Database) :
  messages (clearConversationMessages t' cid (clearConversationMessages t cid d))
  = messages (clearConversationMessages t cid d).
Proof.
  simpl. induction (messages d) as [|m ms IH]; simpl; [done|].
  destruct (negb (bool_decide (Message.conversationId m = cid))) eqn:E; simpl.
  - rewrite E. by f_equal.
  - done.
Qed.

Lemma filter_twice {A : Type} (f : A → bool) (l : list A) :
  List.filter f (List.filter f l) = List.filter f l.
Proof.
  induction l as [|x l IH]; simpl; [done|].
  destruct (f x) eqn:E; simpl; [|done]. rewrite E. by f_equal.
Qed.

(** The classifier reads the policy and the last-activity timestamp only. *)
Lemma isDue_set_lastClearedAt (ts : option Z) (c : Conversation.t) (now : Z) :
  isDue (Conversation.set_lastClearedAt ts c) now = isDue c now.
Proof. reflexivity. Qed.

Lemma due_ids_clear (now t : Z) (cid : Z) (d : Database) :
  Conversation.id <$> getConversationsToClean t (clearConversationMessages now cid d)
  = Conversation.id <$> getConversationsToClean t d.
Proof.
  unfold getConversationsToClean. cbn [clearConversationMessages conversations].
  induction (conversations d) as [|c cs IH]; [done|].
  cbn [List.map List.filter].
  destruct (decide (Conversation.id c = cid)) as [Heq|Hne].
  - rewrite isDue_set_lastClearedAt.
    destruct (isDue c t); [|done]. rewrite !fmap_cons. by f_equal.
  - destruct (isDue c t); [|done]. rewrite !fmap_cons. by f_equal.
Qed.

Lemma due_ids_clear_fold (now t : Z) (due : list Conversation.t) (d : Database) :
  Conversation.id
    <$> getConversationsToClean t
          (foldl (λ acc c, clearConversationMessages now (Conversation.id c) acc) d due)
  = Conversation.id <$> getConversationsToClean t d.
Proof.
  revert d. induction due as [|c due IH]; intros d; [done|].
  cbn [foldl]. rewrite IH. apply due_ids_clear.
Qed.

Lemma filter_ids_eq (ids1 ids2 : list Z) (l : list Message.t) :
  ids1 = ids2 →
  List.filter (λ m, negb (bool_decide (Message.conversationId m ∈ ids1))) l
  = List.filter (λ m, negb (bool_decide (Message.conversationId m ∈ ids2))) l.
Proof. by intros ->. Qed.

(** A second sweep at the same instant removes no row at all. *)
Lemma sweep_same_instant (t : Z) (d : Database) :
  messages (sweep t (sweep t d)) = messages (sweep t d).
Proof.
  unfold sweep at 1. rewrite messages_clear_fold.
  rewrite (filter_ids_eq _ (Conversation.id <$> getConversationsToClean t d))
    by apply due_ids_clear_fold.
  unfold sweep. rewrite messages_clear_fold. apply filter_twice.
Qed.

(** C7.  A conversation cleared by a sweep owns no message afterwards, so
    a second sweep right after it (at any clock value) deletes none of its
    messages and leaves its message set empty; a second sweep at the same
    instant removes no row of the messages table at all; and clearing a
    conversation twice in a row leaves the messages table as clearing it
    once does. *)
Theorem sweep_twice_deletes_nothing
    (d : Database) (t t' : Z) (c : Conversation.t) :
  c ∈ getConversationsToClean t d →
  messages_of (Conversation.id c) (sweep t d) = [] ∧
  deleted_of (Conversation.id c) (sweep t d) (sweep t' (sweep t d)) = [] ∧
  messages_of (Conversation.id c) (sweep t' (sweep t d)) = [] ∧
  messages (sweep t (sweep t d)) = messages (sweep t d) ∧
  messages (clearConversationMessages t' (Conversation.id c)
              (clearConversationMessages t (Conversation.id c) d))
  = messages (clearConversationMessages t (Conversation.id c) d).
Proof.
  intros Hc. pose proof (messages_of_sweep_due t d c Hc) as Hnone.
  split_and!.
  - done.
  - unfold deleted_of. by rewrite Hnone.
  - by apply no_messages_stay_none.
  - apply sweep_same_instant.
  - apply clear_twice_messages.
Qed.

Lemma sweep_twice_deletes_nothing_witness :
  conv_24h ∈ getConversationsToClean hours_25 small_db ∧
  messages_of 1 small_db = [hello 1; hello 2] ∧
  messages_of 1 (sweep hours_25 small_db) = [] ∧
  deleted_of 1 (sweep hours_25 small_db)
               (sweep (hours_25 + 60000) (sweep hours_25 small_db)) = [].
Proof.
  assert (conv_24h ∈ getConversationsToClean hours_25 small_db) as Hdue
    by (vm_compute; left).
  pose proof (sweep_twice_deletes_nothing small_db hours_25 (hours_25 + 60000)
                conv_24h Hdue) as (H1 & H2 & _).
  split_and!; [exact Hdue | reflexivity | exact H1 | exact H2].
Defined.

(* --------------------------------------------------------------------- *)
(*  The message handler                                                  *)
(* --------------------------------------------------------------------- *)

(** Unfold a handler together with the operations of [M] it is built
    from, so that the conditions it tests come to the surface. *)
Ltac unfold_handler h :=
  unfold h;
  unfold target_not_connected, mbind, M_bind, gets, console_log, modify, ws_send.

Lemma recognized_not_auth (ty : option string) :
  recognized ty → truthy ty = true ∧ bool_decide (ty = Some "auth") = false.
Proof.
  destruct ty as [k|]; [|done]. intros Hk. unfold recognized, signaling_kinds in Hk.
  repeat (apply elem_of_cons in Hk as [->|Hk]; [by split|]).
  by apply not_elem_of_nil in Hk.
Qed.

Lemma is_auth_recognized (data : Msg.t) :
  recognized (Msg.type data) → is_auth data = false.
Proof.
  intros [Ht Ha]%recognized_not_auth. unfold is_auth. rewrite Ht, Ha.
  by rewrite andb_false_r.
Qed.

(** A frame that is not an authentication frame reaches the signaling
    branch. *)
Lemma on_message_signaling (ws : nat) (data : Msg.t) (s : Server) :
  is_auth data = false →
  on_message ws (Some data) s
  = try_catch (handle_signaling ws data) (console_log LogMessageError) s.
Proof.
  unfold is_auth, on_message, try_catch. intros Hna. simpl.
  unfold mbind, M_bind, mret, M_ret.
  destruct (truthy (Msg.userId data)), (truthy (Msg.type data)),
    (bool_decide (Msg.type data = Some "auth")); simpl in *; try done.
Qed.

(** An authentication frame binds the identity and does nothing else. *)
Lemma on_message_auth (ws : nat) (data : Msg.t) (s : Server) :
  is_auth data = true →
  on_message ws (Some data) s = bind_identity ws (Msg.userId data) s.
Proof.
  unfold is_auth, on_message, try_catch. intros Ha. simpl.
  unfold mbind, M_bind, mret, M_ret.
  destruct (truthy (Msg.userId data)) eqn:Hu, (truthy (Msg.type data)),
    (bool_decide (Msg.type data = Some "auth")); simpl in *; try done.
  all: destruct (Msg.userId data); done.
Qed.

Lemma bind_identity_some (ws : nat) (uid : string) (s : Server) :
  bind_identity ws (Some uid) s
  = (Return (),
     upd_console (λ ls, ls ++ [LogUserConnected uid])
       (upd_clients (JsMap.set uid ws)
          (upd_socket ws (Ws.set_userId (Some uid)) s))).
Proof. reflexivity. Qed.

(** What the signaling branch does when the target resolves to an open
    socket that accepts the frame. *)
Lemma handle_signaling_forward
    (ws tws : nat) (data : Msg.t) (s : Server) (T : string) :
  truthy (Ws.userId (sockets s ws)) = true →
  Msg.target data = Some T → T ≠ "" →
  JsMap.get T (connectedClients s) = Some tws →
  Ws.readyState (sockets s tws) = OPEN →
  Ws.sendThrows (sockets s tws) = false →
  handle_signaling ws data s
  = (Return (),
     upd_console (λ ls, ls ++ [LogForwarded (Some T)])
       (upd_wire (λ w, w ++ [(tws, Msg.with_from (Ws.userId (sockets s ws)) data)])
          (upd_console
             (λ ls, ls ++ [LogHandling (Msg.type data) (Ws.userId (sockets s ws)) (Some T)])
             s))).
Proof.
  intros Hu Ht HT Hget Hopen Hacc.
  unfold_handler handle_signaling.
  rewrite Hu, Ht. simpl. rewrite bool_decide_eq_true_2 by done. simpl.
  rewrite Hget. simpl. rewrite decide_True by done. simpl.
  rewrite Hacc. reflexivity.
Qed.

(** What the signaling branch does when the target does not resolve to an
    open socket. *)
Lemma handle_signaling_unreachable
    (ws : nat) (data : Msg.t) (s : Server) (T : string) :
  truthy (Ws.userId (sockets s ws)) = true →
  Msg.target data = Some T → T ≠ "" →
  (∀ tws, JsMap.get T (connectedClients s) = Some tws →
          Ws.readyState (sockets s tws) ≠ OPEN) →
  handle_signaling ws data s
  = (Return (),
     upd_console
       (λ ls, ls ++ [LogHandling (Msg.type data) (Ws.userId (sockets s ws)) (Some T);
                     LogTargetNotConnected (Some T);
                     LogConnectedClients (JsMap.keys (connectedClients s))])
       s).
Proof.
  intros Hu Ht HT Hget.
  unfold_handler handle_signaling.
  rewrite Hu, Ht. simpl. rewrite bool_decide_eq_true_2 by done. simpl.
  destruct (JsMap.get T (connectedClients s)) as [tws|] eqn:E; simpl.
  - rewrite decide_False by (by apply Hget). simpl.
    unfold upd_console; simpl. by rewrite <- !app_assoc.
  - unfold upd_console; simpl. by rewrite <- !app_assoc.
Qed.

(** What the signaling branch does when the socket has no user or the
    frame has no target. *)
Lemma handle_signaling_invalid (ws : nat) (data : Msg.t) (s : Server) :
  truthy (Ws.userId (sockets s ws)) && truthy (Msg.target data) = false →
  handle_signaling ws data s
  = (Return (),
     upd_console
       (λ ls, ls ++ [LogInvalidMessage (Ws.userId (sockets s ws)) (Msg.target data)])
       s).
Proof.
  intros Hno. unfold_handler handle_signaling. simpl.
  by rewrite Hno.
Qed.

Lemma truthy_some (u : string) : u ≠ "" → truthy (Some u) = true.
Proof. intros Hu. simpl. by apply bool_decide_eq_true_2. Qed.

(** C2.  A socket bound to S sends a signaling frame for a non-empty
    target T; T is in the connection map, its socket is open and accepts
    the frame.  Then the handler writes exactly one frame, to T's socket,
    and that frame is the inbound one with [from] set to S: its type, data
    payload and conversationId are those of the inbound frame. *)
Theorem relay_forwards_exactly_once
    (s : Server) (ws tws : nat) (S T : string) (data : Msg.t) :
  Ws.userId (sockets s ws) = Some S → S ≠ "" →
  recognized (Msg.type data) →
  Msg.target data = Some T → T ≠ "" →
  JsMap.get T (connectedClients s) = Some tws →
  Ws.readyState (sockets s tws) = OPEN →
  accepts s tws →
  let copy := Msg.with_from (Some S) data in
  wire (exec (on_message ws (Some data)) s) = wire s ++ [(tws, copy)] ∧
  Msg.from copy = Some S ∧
  Msg.type copy = Msg.type data ∧
  Msg.data copy = Msg.data data ∧
  Msg.conversationId copy = Msg.conversationId data.
Proof.
  intros HS HSne Hk Ht HT Hget Hopen Hacc copy. split; [|done].
  unfold exec. rewrite on_message_signaling by by apply is_auth_recognized.
  unfold try_catch.
  rewrite (handle_signaling_forward ws tws data s T); try done.
  - simpl. by rewrite HS.
  - rewrite HS. by apply truthy_some.
Qed.

Lemma relay_forwards_exactly_once_witness :
  wire two_clients = [] ∧
  wire (exec (on_message 1 (Some (frame_to "offer" "u1"))) two_clients)
  = [(0, Msg.with_from (Some "u2") (frame_to "offer" "u1"))].
Proof.
  split; [reflexivity|].
  refine (proj1 (relay_forwards_exactly_once two_clients 1 0 "u2" "u1"
                   (frame_to "offer" "u1") _ _ _ _ _ _ _ _)).
  - reflexivity.
  - discriminate.
  - vm_compute. left.
  - reflexivity.
  - discriminate.
  - reflexivity.
  - reflexivity.
  - reflexivity.
Defined.

(** C4.  A socket bound to S sends a signaling frame whose target is not
    in the connection map, or is mapped to a socket that is not open.
    The handler returns normally without entering its catch clause, writes
    no frame to any socket, and leaves every socket and the connection map
    as they were; it only logs the unreachable target. *)
Theorem unreachable_target_is_dropped
    (s : Server) (ws : nat) (S T : string) (data : Msg.t) :
  Ws.userId (sockets s ws) = Some S → S ≠ "" →
  recognized (Msg.type data) →
  Msg.target data = Some T → T ≠ "" →
  (∀ tws, JsMap.get T (connectedClients s) = Some tws →
          Ws.readyState (sockets s tws) ≠ OPEN) →
  let s' := exec (on_message ws (Some data)) s in
  result (on_message ws (Some data)) s = Return () ∧
  wire s' = wire s ∧
  sockets s' = sockets s ∧
  connectedClients s' = connectedClients s ∧
  console s' = console s ++
    [LogHandling (Msg.type data) (Some S) (Some T);
     LogTargetNotConnected (Some T);
     LogConnectedClients (JsMap.keys (connectedClients s))].
Proof.
  intros HS HSne Hk Ht HT Hget s'. subst s'. unfold exec, result.
  rewrite on_message_signaling by by apply is_auth_recognized.
  unfold try_catch.
  rewrite (handle_signaling_unreachable ws data s T); try done.
  - simpl. by rewrite HS.
  - rewrite HS. by apply truthy_some.
Qed.

Lemma unreachable_target_is_dropped_witness :
  JsMap.get "u9" (connectedClients two_clients) = None ∧
  wire (exec (on_message 1 (Some (frame_to "offer" "u9"))) two_clients) = [] ∧
  Ws.readyState
    (sockets (exec (on_message 1 (Some (frame_to "offer" "u9"))) two_clients) 1)
  = OPEN ∧
  JsMap.get "u2"
    (connectedClients (exec (on_message 1 (Some (frame_to "offer" "u9"))) two_clients))
  = Some 1.
Proof.
  assert (∀ tws, JsMap.get "u9" (connectedClients two_clients) = Some tws →
                 Ws.readyState (sockets two_clients tws) ≠ OPEN) as Hnone
    by (intros tws; vm_compute; discriminate).
  assert (recognized (Msg.type (frame_to "offer" "u9"))) as Hk
    by (vm_compute; left).
  pose proof (unreachable_target_is_dropped two_clients 1 "u2" "u9"
                (frame_to "offer" "u9") eq_refl ltac:(discriminate) Hk
                eq_refl ltac:(discriminate) Hnone) as (_ & Hw & Hs & Hm & _).
  split_and!.
  - reflexivity.
  - rewrite Hw. reflexivity.
  - rewrite Hs. reflexivity.
  - rewrite Hm. reflexivity.
Defined.

(** C5.  A socket that has bound no identity sends a frame carrying a
    target.  Whatever else the frame holds, the handler returns normally,
    writes no frame to any socket, and changes no socket's ready state: the
    originating connection is not closed. *)
Theorem unauthenticated_frame_not_forwarded
    (s : Server) (ws : nat) (data : Msg.t) :
  truthy (Ws.userId (sockets s ws)) = false →
  truthy (Msg.target data) = true →
  let s' := exec (on_message ws (Some data)) s in
  result (on_message ws (Some data)) s = Return () ∧
  wire s' = wire s ∧
  ∀ ws', Ws.readyState (sockets s' ws') = Ws.readyState (sockets s ws').
Proof.
  intros Hu Ht s'. subst s'. unfold exec, result.
  destruct (is_auth data) eqn:Ha.
  - rewrite on_message_auth by done.
    destruct (Msg.userId data) as [uid|] eqn:E.
    + rewrite bind_identity_some. simpl. split_and!; [done..|].
      intros ws'. by case_decide.
    + done.
  - rewrite on_message_signaling by done. unfold try_catch.
    rewrite handle_signaling_invalid by by rewrite Hu. done.
Qed.

Lemma unauthenticated_frame_not_forwarded_witness :
  Ws.userId (sockets two_clients 2) = None ∧
  JsMap.get "u1" (connectedClients two_clients) = Some 0 ∧
  wire (exec (on_message 2 (Some (frame_to "offer" "u1"))) two_clients) = [] ∧
  Ws.readyState
    (sockets (exec (on_message 2 (Some (frame_to "offer" "u1"))) two_clients) 2)
  = OPEN.
Proof.
  pose proof (unauthenticated_frame_not_forwarded two_clients 2
                (frame_to "offer" "u1") eq_refl eq_refl) as (_ & Hw & Hr).
  split_and!.
  - reflexivity.
  - reflexivity.
  - rewrite Hw. reflexivity.
  - rewrite Hr. reflexivity.
Defined.

(** C3 (as amended).  A socket that has bound an identity sends a frame
    whose type is none of the seven signaling kinds.  The frame is
    forwarded to no socket when it carries no non-empty target or is an
    authentication frame; otherwise the handler does not look at the type:
    if the target is mapped to an open socket that accepts the frame, the
    frame is forwarded there with [from] attached, as a recognized one
    would be. *)
Theorem unrecognized_type_routing
    (s : Server) (ws : nat) (data : Msg.t) :
  truthy (Ws.userId (sockets s ws)) = true →
  ¬ recognized (Msg.type data) →
  (truthy (Msg.target data) = false ∨ is_auth data = true →
   wire (exec (on_message ws (Some data)) s) = wire s) ∧
  (is_auth data = false →
   ∀ T tws, Msg.target data = Some T → T ≠ "" →
     JsMap.get T (connectedClients s) = Some tws →
     Ws.readyState (sockets s tws) = OPEN →
     accepts s tws →
     wire (exec (on_message ws (Some data)) s)
     = wire s ++ [(tws, Msg.with_from (Ws.userId (sockets s ws)) data)]).
Proof.
  intros Hu _. unfold exec. split.
  - intros Hcase. destruct (is_auth data) eqn:Ha.
    + rewrite on_message_auth by done.
      destruct (Msg.userId data) as [uid|]; [|done].
      by rewrite bind_identity_some.
    + destruct Hcase as [Hnt|?]; [|done].
      rewrite on_message_signaling by done. unfold try_catch.
      rewrite handle_signaling_invalid by (by rewrite Hnt, andb_false_r). done.
  - intros Ha T tws Ht HT Hget Hopen Hacc.
    rewrite on_message_signaling by done. unfold try_catch.
    by rewrite (handle_signaling_forward ws tws data s T).
Qed.

Lemma not_recognized_ping : ¬ recognized (Some "ping").
Proof. apply (bool_decide_eq_false_1 _). reflexivity. Qed.

Lemma unrecognized_type_routing_witness :
  wire (exec (on_message 1 (Some (bare_frame "ping"))) two_clients)
  = wire two_clients ∧
  wire (exec (on_message 1 (Some (frame_to "ping" "u1"))) two_clients)
  = wire two_clients ++ [(0, Msg.with_from (Some "u2") (frame_to "ping" "u1"))].
Proof.
  split.
  - refine (proj1 (unrecognized_type_routing two_clients 1 (bare_frame "ping")
                     eq_refl not_recognized_ping) _).
    left. reflexivity.
  - refine (proj2 (unrecognized_type_routing two_clients 1 (frame_to "ping" "u1")
                     eq_refl not_recognized_ping) eq_refl "u1" 0 eq_refl _ eq_refl
                  eq_refl eq_refl).
    discriminate.
Defined.

(** C3, as stated, fails: u2's socket sends a frame of type 'ping' for
    u1, and u1's socket receives it. *)
Lemma unrecognized_type_forwarded_counterexample :
  Ws.userId (sockets two_clients 1) = Some "u2" ∧
  ¬ recognized (Msg.type (frame_to "ping" "u1")) ∧
  wire two_clients = [] ∧
  wire (exec (on_message 1 (Some (frame_to "ping" "u1"))) two_clients)
  = [(0, Msg.with_from (Some "u2") (frame_to "ping" "u1"))].
Proof.
  split_and!; [reflexivity | | reflexivity | reflexivity].
  apply (bool_decide_eq_false_1 _). reflexivity.
Qed.

(* --------------------------------------------------------------------- *)
(*  The connection map                                                   *)
(* --------------------------------------------------------------------- *)

Section JsMap_facts.
Context {V : Type}.
Implicit Types (m : JsMap.t V) (k : string) (v : V).

Lemma get_set_eq m k v : JsMap.get k (JsMap.set k v m) = Some v.
Proof.
  induction m as [|[k' v'] m IH]; simpl.
  - by rewrite decide_True.
  - destruct (decide (k' = k)) as [->|Hne]; simpl.
    + by rewrite decide_True.
    + by rewrite decide_False.
Qed.

Lemma get_set_ne m k k' v :
  k ≠ k' → JsMap.get k' (JsMap.set k v m) = JsMap.get k' m.
Proof.
  intros Hne. induction m as [|[k0 v0] m IH]; simpl.
  - by rewrite decide_False.
  - destruct (decide (k0 = k)) as [->|]; simpl.
    + by rewrite !decide_False.
    + case_decide; [done|]. apply IH.
Qed.

Lemma get_delete_eq m k : JsMap.get k (JsMap.delete k m) = None.
Proof.
  induction m as [|[k' v'] m IH]; simpl; [done|].
  case_decide; simpl; [done|]. by rewrite decide_False.
Qed.

Lemma get_delete_ne m k k' :
  k ≠ k' → JsMap.get k' (JsMap.delete k m) = JsMap.get k' m.
Proof.
  intros Hne. induction m as [|[k0 v0] m IH]; simpl; [done|].
  destruct (decide (k0 = k)) as [->|]; simpl.
  - by rewrite decide_False.
  - by rewrite IH.
Qed.

Lemma elem_of_keys_set m k k' v :
  k' ∈ JsMap.keys (JsMap.set k v m) ↔ k' = k ∨ k' ∈ JsMap.keys m.
Proof.
  unfold JsMap.keys. induction m as [|[k0 v0] m IH]; simpl.
  - rewrite list_elem_of_singleton, elem_of_nil. tauto.
  - destruct (decide (k0 = k)) as [->|Hne]; simpl.
    + rewrite !elem_of_cons. tauto.
    + rewrite !elem_of_cons, IH. tauto.
Qed.

Lemma NoDup_keys_set m k v :
  NoDup (JsMap.keys m) → NoDup (JsMap.keys (JsMap.set k v m)).
Proof.
  unfold JsMap.keys. induction m as [|[k0 v0] m IH]; simpl; intros Hnd.
  - apply NoDup_singleton.
  - apply list.NoDup_cons in Hnd as [Hout Hnd].
    case_decide; subst; simpl; apply list.NoDup_cons; split; try done.
    + intros Hin. apply (elem_of_keys_set m k k0 v) in Hin as [?|?]; done.
    + by apply IH.
Qed.

Lemma elem_of_keys_delete m k k' :
  k' ∈ JsMap.keys (JsMap.delete k m) → k' ∈ JsMap.keys m.
Proof.
  unfold JsMap.keys. induction m as [|[k0 v0] m IH]; simpl; [done|].
  case_decide; simpl; rewrite !elem_of_cons; tauto.
Qed.

Lemma NoDup_keys_delete m k :
  NoDup (JsMap.keys m) → NoDup (JsMap.keys (JsMap.delete k m)).
Proof.
  unfold JsMap.keys. induction m as [|[k0 v0] m IH]; simpl; intros Hnd; [done|].
  apply list.NoDup_cons in Hnd as [Hout Hnd].
  case_decide; simpl; [by apply IH|].
  apply list.NoDup_cons; split; [|by apply IH].
  intros Hin. by apply (elem_of_keys_delete m k k0) in Hin.
Qed.

(** With distinct keys, the entries under one key are at most one. *)
Lemma NoDup_keys_at_most_one m k :
  NoDup (JsMap.keys m) →
  length (List.filter (λ e, bool_decide (e.1 = k)) m) ≤ 1.
Proof.
  unfold JsMap.keys. induction m as [|[k0 v0] m IH]; simpl; intros Hnd; [lia|].
  apply list.NoDup_cons in Hnd as [Hout Hnd].
  case_bool_decide; simpl in *; subst; [|by apply IH].
  assert (List.filter (λ e : string * V, bool_decide (e.1 = k)) m = []) as ->; [|simpl; lia].
  clear IH Hnd. induction m as [|[k1 v1] m IH]; simpl; [done|].
  case_bool_decide; simpl in *; subst.
  - exfalso. apply Hout. left.
  - apply IH. intros Hin. apply Hout. by right.
Qed.
End JsMap_facts.

(* --------------------------------------------------------------------- *)
(*  The broadcaster                                                      *)
(* --------------------------------------------------------------------- *)

Lemma written_nil (s : Server) : written [] s = s.
Proof. destruct s. unfold written, upd_wire. simpl. by rewrite app_nil_r. Qed.

Lemma written_written (l1 l2 : list (nat * Msg.t)) (s : Server) :
  written l2 (written l1 s) = written (l1 ++ l2) s.
Proof. unfold written, upd_wire. simpl. by rewrite app_assoc. Qed.

Lemma send_if_open_closed (cid : Z) (m : Msg.t) (ws : nat) (s : Server) :
  Ws.readyState (sockets s ws) ≠ OPEN →
  send_if_open cid m ws s = (Return (), s).
Proof.
  intros Hc. unfold_handler send_if_open. simpl.
  by rewrite decide_False.
Qed.

Lemma send_if_open_accepted (cid : Z) (m : Msg.t) (ws : nat) (s : Server) :
  Ws.readyState (sockets s ws) = OPEN → accepts s ws →
  send_if_open cid m ws s = (Return (), written [(ws, Msg.broadcast_of cid m)] s).
Proof.
  intros Ho Ha. unfold_handler send_if_open. simpl.
  rewrite decide_True by done. by rewrite Ha.
Qed.

Lemma send_if_open_thrown (cid : Z) (m : Msg.t) (ws : nat) (s : Server) :
  Ws.readyState (sockets s ws) = OPEN → ¬ accepts s ws →
  send_if_open cid m ws s = (Throw, s).
Proof.
  intros Ho Ha. unfold_handler send_if_open. simpl.
  rewrite decide_True by done.
  unfold accepts in Ha. by destruct (Ws.sendThrows (sockets s ws)).
Qed.

(** The loop when every open socket it visits accepts the frame. *)
Lemma forEach_all_accept (cid : Z) (m : Msg.t) (entries : JsMap.t nat) (s : Server) :
  Forall (accepts s) (open_among s (JsMap.values entries)) →
  forEach (send_if_open cid m) entries s
  = (Return (),
     written (copies (Msg.broadcast_of cid m) (open_among s (JsMap.values entries))) s).
Proof.
  revert s. induction entries as [|[k v] rest IH]; intros s Hall.
  - simpl. by rewrite written_nil.
  - cbn [forEach]. unfold mbind at 1, M_bind at 1.
    unfold JsMap.values, open_among in *. rewrite fmap_cons in *.
    cbn [List.filter snd] in *.
    destruct (decide (Ws.readyState (sockets s v) = OPEN)) as [Ho|Hc].
    + rewrite (bool_decide_eq_true_2 _ Ho) in *.
      apply list.Forall_cons in Hall as [Hv Hrest].
      rewrite send_if_open_accepted by done.
      rewrite (IH (written [(v, Msg.broadcast_of cid m)] s)) by exact Hrest.
      rewrite written_written. reflexivity.
    + rewrite (bool_decide_eq_false_2 _ Hc) in *.
      rewrite send_if_open_closed by done. by apply IH.
Qed.

(** Whatever happens, the loop only writes frames. *)
Lemma forEach_writes_only (cid : Z) (m : Msg.t) (entries : JsMap.t nat) (s : Server) :
  ∃ frames, (forEach (send_if_open cid m) entries s).2 = written frames s.
Proof.
  revert s. induction entries as [|[k v] rest IH]; intros s.
  - exists []. simpl. by rewrite written_nil.
  - cbn [forEach]. unfold mbind at 1, M_bind at 1.
    destruct (decide (Ws.readyState (sockets s v) = OPEN)) as [Ho|Hc].
    + destruct (Ws.sendThrows (sockets s v)) eqn:Ht.
      * rewrite send_if_open_thrown; [|done|unfold accepts; by rewrite Ht].
        exists []. simpl. by rewrite written_nil.
      * rewrite send_if_open_accepted by done.
        destruct (IH (written [(v, Msg.broadcast_of cid m)] s)) as [frames Hf].
        exists ((v, Msg.broadcast_of cid m) :: frames).
        rewrite Hf. by rewrite written_written.
    + rewrite send_if_open_closed by done. apply IH.
Qed.

Lemma broadcastMessage_unfold (cid : Z) (m : Msg.t) (s : Server) :
  broadcastMessage cid m s = forEach (send_if_open cid m) (connectedClients s) s.
Proof. reflexivity. Qed.

Lemma post_message_stored (created now : Z) (ins : InsertMessage.t) (s : Server) :
  references_ok (db s) ins = true →
  post_message created now ins s
  = try_catch
      (broadcastMessage (InsertMessage.conversationId ins)
         (new_message_event (inserted_row created (db s) ins));;
       mret (Json 200 (Message.to_json (inserted_row created (db s) ins))))
      (console_log LogSendingMessageError;;
       mret (Failure 500 "Failed to send message"))
      (upd_db (λ _, (addMessage created now ins (db s)).2) s).
Proof.
  intros Hok. unfold post_message, try_catch.
  unfold mbind at 1, M_bind at 1. unfold storage_addMessage, addMessage.
  rewrite Hok. reflexivity.
Qed.

(** The message route when the insert is accepted and every open socket
    accepts the frame. *)
Lemma post_message_accepted (created now : Z) (ins : InsertMessage.t) (s : Server) :
  references_ok (db s) ins = true →
  Forall (accepts s) (open_clients s) →
  post_message created now ins s
  = (Return (Json 200 (Message.to_json (inserted_row created (db s) ins))),
     written
       (copies (Msg.broadcast_of (InsertMessage.conversationId ins)
                  (new_message_event (inserted_row created (db s) ins)))
               (open_clients s))
       (upd_db (λ _, (addMessage created now ins (db s)).2) s)).
Proof.
  intros Hok Hall. rewrite post_message_stored by done.
  unfold try_catch. unfold mbind at 1, M_bind at 1.
  rewrite broadcastMessage_unfold.
  by rewrite forEach_all_accept.
Qed.

(** C9.  When no open socket in the connection map throws on send, a
    broadcast of a stored-message event for conversation [cid] returns
    normally and writes one frame per entry of the map whose socket is
    open, in map order, and nothing else.  The frame carries the row as
    data and [cid] as conversationId.  No conversation membership is
    consulted: every identity [u] mapped to an open socket receives it. *)
Theorem broadcast_reaches_every_open_client
    (s : Server) (cid : Z) (row : Message.t) :
  Forall (accepts s) (open_clients s) →
  let frame := Msg.broadcast_of cid (new_message_event row) in
  let s' := exec (broadcastMessage cid (new_message_event row)) s in
  result (broadcastMessage cid (new_message_event row)) s = Return () ∧
  wire s' = wire s ++ copies frame (open_clients s) ∧
  Msg.conversationId frame = Some cid ∧
  Msg.data frame = Some (Message.to_json row) ∧
  ∀ u ws, (u, ws) ∈ connectedClients s →
          Ws.readyState (sockets s ws) = OPEN →
          (ws, frame) ∈ wire s'.
Proof.
  intros Hall frame s'. subst s'. unfold result, exec.
  rewrite broadcastMessage_unfold, forEach_all_accept by done.
  split_and!; [done..|].
  intros u ws Hin Hopen. simpl. apply elem_of_app. right.
  unfold copies. apply (list_elem_of_fmap_2 (λ ws, (ws, frame))).
  unfold open_clients, open_among. apply list_elem_of_In, filter_In. split.
  - apply list_elem_of_In. unfold JsMap.values.
    by apply (list_elem_of_fmap_2 snd _ (u, ws)).
  - by apply bool_decide_eq_true_2.
Qed.

Lemma broadcast_reaches_every_open_client_witness :
  connectedClients one_closed = [("u1", 0); ("u2", 1); ("u3", 2)] ∧
  Ws.readyState (sockets one_closed 0) = CLOSED ∧
  "u3" ≠ Conversation.participant1Id conv_24h ∧
  "u3" ≠ Conversation.participant2Id conv_24h ∧
  wire (exec (broadcastMessage 1 (new_message_event (hello 3))) one_closed)
  = [(1, Msg.broadcast_of 1 (new_message_event (hello 3)));
     (2, Msg.broadcast_of 1 (new_message_event (hello 3)))].
Proof.
  assert (Forall (accepts one_closed) (open_clients one_closed)) as Hall
    by (repeat constructor).
  pose proof (broadcast_reaches_every_open_client one_closed 1 (hello 3) Hall)
    as (_ & Hw & _).
  split_and!; [reflexivity | reflexivity | discriminate | discriminate |].
  rewrite Hw. reflexivity.
Defined.

(* --------------------------------------------------------------------- *)
(*  Registration, takeover and close                                     *)
(* --------------------------------------------------------------------- *)

Lemma handle_signaling_clients (ws : nat) (data : Msg.t) (s : Server) :
  connectedClients
    (try_catch (handle_signaling ws data) (console_log LogMessageError) s).2
  = connectedClients s.
Proof.
  unfold try_catch. unfold_handler handle_signaling. simpl.
  destruct (truthy (Ws.userId (sockets s ws)) && truthy (Msg.target data));
    simpl; [|done].
  destruct (option_bind _ _ _ (Msg.target data)) as [tws|]; simpl; [|done].
  destruct (decide (Ws.readyState (sockets s tws) = OPEN)); simpl; [|done].
  by destruct (Ws.sendThrows (sockets s tws)).
Qed.

(** The message handler leaves the connection map alone or sets one key
    to the handling socket. *)
Lemma on_message_clients (ws : nat) (raw : option Msg.t) (s : Server) :
  connectedClients (exec (on_message ws raw) s) = connectedClients s ∨
  ∃ uid, connectedClients (exec (on_message ws raw) s)
         = JsMap.set uid ws (connectedClients s).
Proof.
  unfold exec. destruct raw as [data|]; [|by left].
  destruct (is_auth data) eqn:Ha.
  - rewrite on_message_auth by done.
    destruct (Msg.userId data) as [uid|]; [|by left].
    right. exists uid. by rewrite bind_identity_some.
  - left. rewrite on_message_signaling by done. apply handle_signaling_clients.
Qed.

(** An authentication frame for [u] maps [u] to the handling socket. *)
Lemma on_message_auth_for (ws : nat) (u : string) (data : Msg.t) (s : Server) :
  auth_for u data →
  on_message ws (Some data) s
  = (Return (),
     upd_console (λ ls, ls ++ [LogUserConnected u])
       (upd_clients (JsMap.set u ws)
          (upd_socket ws (Ws.set_userId (Some u)) s))).
Proof.
  intros (Hu & _ & Ha). rewrite on_message_auth by done.
  by rewrite Hu, bind_identity_some.
Qed.

Lemma close_event_clients (ws : nat) (s : Server) :
  connectedClients (exec (close_event ws) s) = connectedClients s ∨
  ∃ uid, connectedClients (exec (close_event ws) s)
         = JsMap.delete uid (connectedClients s).
Proof.
  unfold exec, close_event. unfold_handler on_close. simpl. rewrite decide_True by done. simpl.
  destruct (Ws.userId (sockets s ws)) as [uid|]; simpl; [|by left].
  case_bool_decide; simpl; [|by left]. right. by exists uid.
Qed.

Lemma post_message_clients (created now : Z) (ins : InsertMessage.t) (s : Server) :
  connectedClients (exec (post_message created now ins) s) = connectedClients s.
Proof.
  unfold exec, post_message, try_catch.
  unfold mbind at 1, M_bind at 1. unfold storage_addMessage.
  destruct (addMessage created now ins (db s)) as [[row|] d]; simpl; [|done].
  unfold mbind at 1, M_bind at 1. rewrite broadcastMessage_unfold.
  destruct (forEach_writes_only (InsertMessage.conversationId ins)
              (new_message_event row) (connectedClients s) (upd_db (λ _, d) s))
    as [frames Hf].
  simpl in Hf.
  destruct (forEach _ _ _) as [[[]|] s1]; simpl in *; by subst s1.
Qed.

(** Every transition keeps the keys of the connection map distinct. *)
Lemma step_NoDup_keys (s : Server) (e : Event) :
  NoDup (JsMap.keys (connectedClients s)) →
  NoDup (JsMap.keys (connectedClients (step s e))).
Proof.
  intros Hnd. destruct e as [|ws raw|ws|ws|ws|ws broken|created now ins]; simpl.
  - done.
  - destruct (live s ws); [|done].
    destruct (on_message_clients ws raw s) as [->|[uid ->]];
      [done|by apply NoDup_keys_set].
  - by destruct (live s ws).
  - destruct (live s ws); [|done].
    destruct (close_event_clients ws s) as [->|[uid ->]];
      [done|by apply NoDup_keys_delete].
  - by destruct (live s ws).
  - by destruct (live s ws).
  - by rewrite post_message_clients.
Qed.

Lemma run_NoDup_keys (history : list Event) (s : Server) :
  NoDup (JsMap.keys (connectedClients s)) →
  NoDup (JsMap.keys (connectedClients (run history s))).
Proof.
  revert s. induction history as [|e history IH]; intros s Hnd; simpl; [done|].
  apply IH. by apply step_NoDup_keys.
Qed.

Lemma reachable_NoDup_keys (history : list Event) (d : Database) :
  NoDup (JsMap.keys (connectedClients (run history (init d)))).
Proof. apply run_NoDup_keys. simpl. apply NoDup_nil_2. Qed.

(** C6.  After any history of the server, socket [a] authenticates as [u]
    and then socket [b] authenticates as [u].  A lookup of [u] then
    returns [b] and not [a], and the connection map holds exactly one
    entry under [u]; before, between and after the two registrations the
    keys of the map are pairwise distinct, so no identity ever has two
    entries. *)
Theorem last_registered_wins
    (history : list Event) (d : Database) (u : string) (a b : nat)
    (fa fb : Msg.t) :
  auth_for u fa → auth_for u fb → a ≠ b →
  let s0 := run history (init d) in
  let s1 := exec (on_message a (Some fa)) s0 in
  let s2 := exec (on_message b (Some fb)) s1 in
  JsMap.get u (connectedClients s1) = Some a ∧
  JsMap.get u (connectedClients s2) = Some b ∧
  JsMap.get u (connectedClients s2) ≠ Some a ∧
  length (List.filter (λ e, bool_decide (e.1 = u)) (connectedClients s2)) ≤ 1 ∧
  NoDup (JsMap.keys (connectedClients s0)) ∧
  NoDup (JsMap.keys (connectedClients s1)) ∧
  NoDup (JsMap.keys (connectedClients s2)).
Proof.
  intros Ha Hb Hab s0 s1 s2.
  assert (NoDup (JsMap.keys (connectedClients s0))) as H0
    by apply reachable_NoDup_keys.
  assert (connectedClients s1 = JsMap.set u a (connectedClients s0)) as E1
    by (subst s1; unfold exec; by rewrite (on_message_auth_for a u fa)).
  assert (connectedClients s2 = JsMap.set u b (connectedClients s1)) as E2
    by (subst s2; unfold exec; by rewrite (on_message_auth_for b u fb)).
  assert (NoDup (JsMap.keys (connectedClients s1))) as H1
    by (rewrite E1; by apply NoDup_keys_set).
  assert (NoDup (JsMap.keys (connectedClients s2))) as H2
    by (rewrite E2; by apply NoDup_keys_set).
  split_and!; try done.
  - rewrite E1. apply get_set_eq.
  - rewrite E2. apply get_set_eq.
  - rewrite E2, get_set_eq. congruence.
  - by apply NoDup_keys_at_most_one.
Qed.

Lemma last_registered_wins_witness :
  JsMap.get "u1"
    (connectedClients
       (exec (on_message 1 (Some (auth_frame "u1")))
          (exec (on_message 0 (Some (auth_frame "u1")))
             (run [EvConnection; EvConnection] (init small_db)))))
  = Some 1.
Proof.
  refine (proj1 (proj2 (last_registered_wins [EvConnection; EvConnection]
                          small_db "u1" 0 1 (auth_frame "u1") (auth_frame "u1")
                          _ _ _))).
  - split_and!; [reflexivity | discriminate | reflexivity].
  - split_and!; [reflexivity | discriminate | reflexivity].
  - discriminate.
Defined.

Lemma close_event_bound (ws : nat) (uid : string) (s : Server) :
  Ws.userId (sockets s ws) = Some uid → uid ≠ "" →
  close_event ws s
  = (Return (),
     upd_console (λ ls, ls ++ [LogUserDisconnected uid])
       (upd_clients (JsMap.delete uid)
          (upd_socket ws (Ws.set_readyState CLOSED) s))).
Proof.
  intros Hu Hne.
  unfold close_event. unfold_handler on_close. simpl. rewrite decide_True by done. simpl. rewrite Hu. simpl.
  by rewrite bool_decide_eq_true_2.
Qed.

(** C10.  Socket [c1] authenticates as [u], socket [c2] authenticates as
    [u] and takes over the map entry, then [c1] closes.  The close handler
    deletes the entry under [c1]'s user id, which is [u]: a lookup of [u]
    finds nothing, although [c2] is still bound to [u], was registered
    last, and its ready state is what it was. *)
Theorem close_of_superseded_socket_unregisters_identity
    (s : Server) (u : string) (c1 c2 : nat) (f1 f2 : Msg.t) :
  auth_for u f1 → auth_for u f2 → c1 ≠ c2 →
  let s1 := exec (on_message c1 (Some f1)) s in
  let s2 := exec (on_message c2 (Some f2)) s1 in
  let s3 := exec (close_event c1) s2 in
  JsMap.get u (connectedClients s2) = Some c2 ∧
  JsMap.get u (connectedClients s3) = None ∧
  Ws.userId (sockets s3 c2) = Some u ∧
  Ws.readyState (sockets s3 c2) = Ws.readyState (sockets s c2).
Proof.
  intros Ha Hb Hne s1 s2 s3.
  assert (Ws.userId (sockets s2 c1) = Some u) as Hu1.
  { subst s1 s2. unfold exec.
    rewrite (on_message_auth_for c1 u f1), (on_message_auth_for c2 u f2) by done.
    simpl. rewrite decide_False by done. by rewrite decide_True. }
  assert (connectedClients s2 = JsMap.set u c2 (connectedClients s1)) as E2
    by (subst s2; unfold exec; by rewrite (on_message_auth_for c2 u f2)).
  assert (sockets s2 c2 = Ws.set_userId (Some u) (sockets s1 c2)) as S2.
  { subst s2. unfold exec. rewrite (on_message_auth_for c2 u f2) by done.
    simpl. by rewrite decide_True. }
  assert (Ws.readyState (sockets s1 c2) = Ws.readyState (sockets s c2)) as R1.
  { subst s1. unfold exec. rewrite (on_message_auth_for c1 u f1) by done.
    simpl. by rewrite decide_False. }
  subst s3. unfold exec.
  rewrite (close_event_bound c1 u s2) by (done || apply Ha). simpl.
  rewrite decide_False by done. rewrite S2. simpl.
  split_and!; [rewrite E2; apply get_set_eq | apply get_delete_eq | done | done].
Qed.

Lemma close_of_superseded_socket_unregisters_identity_witness :
  JsMap.get "u1"
    (connectedClients
       (run [EvConnection; EvConnection;
             EvMessage 0 (Some (auth_frame "u1"));
             EvMessage 1 (Some (auth_frame "u1"));
             EvClose 0] (init small_db)))
  = None ∧
  Ws.readyState
    (sockets
       (run [EvConnection; EvConnection;
             EvMessage 0 (Some (auth_frame "u1"));
             EvMessage 1 (Some (auth_frame "u1"));
             EvClose 0] (init small_db)) 1)
  = OPEN.
Proof.
  assert (auth_for "u1" (auth_frame "u1")) as Hauth
    by (split_and!; [reflexivity | discriminate | reflexivity]).
  pose proof (close_of_superseded_socket_unregisters_identity
                (run [EvConnection; EvConnection] (init small_db))
                "u1" 0 1 (auth_frame "u1") (auth_frame "u1")
                Hauth Hauth ltac:(discriminate)) as (_ & Hget & _ & Hopen).
  split; [exact Hget | exact Hopen].
Defined.

(* --------------------------------------------------------------------- *)
(*  Send failures                                                        *)
(* --------------------------------------------------------------------- *)










(* --------------------------------------------------------------------- *)
(*  Invariants of the store                                              *)
(* --------------------------------------------------------------------- *)

Lemma ids_map (f : Conversation.t → Conversation.t) (l : list Conversation.t) :
  keeps_keys f → Conversation.id <$> List.map f l = Conversation.id <$> l.
Proof.
  intros Hf. induction l as [|c l IH]; [done|].
  cbn [List.map]. rewrite !fmap_cons, IH. f_equal. apply Hf.
Qed.

Lemma between_sym (a b : string) (c : Conversation.t) :
  between a b c = between b a c.
Proof. unfold between. apply orb_comm. Qed.

Lemma NoDup_fmap_filter {A B : Type} (g : A → B) (p : A → bool) (l : list A) :
  NoDup (g <$> l) → NoDup (g <$> List.filter p l).
Proof.
  induction l as [|x l IH]; [done|].
  rewrite fmap_cons. intros [Hx Hl]%list.NoDup_cons. cbn [List.filter].
  destruct (p x); [|by apply IH].
  rewrite fmap_cons. apply list.NoDup_cons. split; [|by apply IH].
  intros (y & Hy & Hin)%list_elem_of_fmap. apply Hx.
  apply list_elem_of_fmap. exists y. split; [done|].
  apply list_elem_of_In. apply list_elem_of_In, filter_In in Hin. tauto.
Qed.

Lemma Forall_filter_keep {A : Type} (P : A → Prop) (p : A → bool) (l : list A) :
  Forall P l → Forall P (List.filter p l).
Proof.
  intros H. apply List.Forall_forall. intros x [Hin _]%filter_In.
  by apply (proj1 (List.Forall_forall P l) H).
Qed.

(** The invariant survives a rewrite of the conversation rows that keeps
    their keys, together with any change of the messages table that keeps
    its own part of the invariant. *)
Lemma store_ok_rewrite
    (st : Store) (f : Conversation.t → Conversation.t)
    (msgs : list Message.t) (seq : Z) :
  store_ok st → keeps_keys f →
  (∀ c, setting_ok c → setting_ok (f c)) →
  (∀ c, is_Some (Conversation.lastMessageAt c) →
        is_Some (Conversation.lastMessageAt (f c))) →
  NoDup (Message.id <$> msgs) →
  Forall (λ m, (Message.id m < seq)%Z) msgs →
  Forall (λ m, Message.conversationId m
                 ∈ Conversation.id <$> conversations (tables st)
               ∧ Message.senderId m ∈ users (tables st)) msgs →
  store_ok
    {| tables := {| users := users (tables st);
                    conversations := List.map f (conversations (tables st));
                    messages := msgs; messages_id_seq := seq |};
       conversations_id_seq := conversations_id_seq st |}.
Proof.
  intros Hok Hf Hset Hact Hnd Hseq Href. split; cbn [tables conversations
    messages users messages_id_seq conversations_id_seq].
  - rewrite ids_map by done. apply Hok.
  - apply List.Forall_map.
    eapply list.Forall_impl; [exact (ok_conversation_seq st Hok)|].
    intros c Hc. cbn beta. by rewrite (proj1 (Hf c)).
  - done.
  - done.
  - apply List.Forall_map.
    eapply list.Forall_impl; [exact (ok_settings st Hok)|].
    intros c Hc. by apply Hset.
  - apply List.Forall_map.
    eapply list.Forall_impl; [exact (ok_activity st Hok)|].
    intros c Hc. by apply Hact.
  - apply List.Forall_map.
    eapply list.Forall_impl; [exact (ok_participants st Hok)|].
    intros c Hc. cbn beta. destruct (Hf c) as (_ & -> & ->). done.
  - by rewrite ids_map.
Qed.

Lemma keeps_keys_if (cid : Z) (g : Conversation.t → Conversation.t) :
  keeps_keys g →
  keeps_keys (λ c, if decide (Conversation.id c = cid) then g c else c).
Proof. intros Hg c. case_decide; [apply Hg|done]. Qed.

Lemma keeps_keys_lastClearedAt (ts : option Z) :
  keeps_keys (Conversation.set_lastClearedAt ts).
Proof. done. Qed.

Lemma keeps_keys_lastMessageAt (ts : option Z) :
  keeps_keys (Conversation.set_lastMessageAt ts).
Proof. done. Qed.

Lemma keeps_keys_autoClearAfter (p : option string) :
  keeps_keys (set_autoClearAfter p).
Proof. done. Qed.

Lemma store_ok_clear (now cid : Z) (st : Store) :
  store_ok st →
  store_ok (with_tables (clearConversationMessages now cid (tables st)) st).
Proof.
  intros Hok. unfold with_tables, clearConversationMessages.
  apply store_ok_rewrite; try done.
  - apply keeps_keys_if, keeps_keys_lastClearedAt.
  - intros c Hc. by case_decide.
  - intros c Hc. by case_decide.
  - apply NoDup_fmap_filter, Hok.
  - apply Forall_filter_keep, Hok.
  - apply Forall_filter_keep, Hok.
Qed.

Lemma store_ok_addMessage (created now : Z) (ins : InsertMessage.t) (st : Store) :
  store_ok st →
  store_ok (with_tables (addMessage created now ins (tables st)).2 st).
Proof.
  intros Hok. unfold with_tables, addMessage.
  pose proof (ok_message_seq st Hok) as Hseq.
  destruct (references_ok (tables st) ins) eqn:Href; cbn [snd].
  - apply andb_true_iff in Href as [Hc%bool_decide_eq_true Hu%bool_decide_eq_true].
    apply store_ok_rewrite; try done.
    + apply keeps_keys_if, keeps_keys_lastMessageAt.
    + intros c Hc'. by case_decide.
    + intros c Hc'. case_decide; [by eexists|done].
    + rewrite fmap_app. apply list.NoDup_app.
      split_and!; [apply Hok| |apply NoDup_singleton].
      intros i (m & -> & Hm)%list_elem_of_fmap. cbn.
      rewrite list_elem_of_singleton. intros Heq.
      apply (proj1 (list.Forall_forall _ _) Hseq) in Hm. lia.
    + apply Forall_app. split.
      * eapply list.Forall_impl; [exact Hseq|]. intros m Hm. cbn beta in *. lia.
      * apply Forall_singleton. cbn. lia.
    + apply Forall_app. split; [apply Hok|]. by apply Forall_singleton.
  - destruct Hok. split; cbn; try done.
    eapply list.Forall_impl; [done|]. intros m Hm. cbn beta in *. lia.
Qed.

Lemma store_ok_put (cid : option Z) (setting : option string) (st : Store) :
  store_ok st →
  store_ok (with_tables (put_clear_settings cid setting (tables st)).2 st).
Proof.
  intros Hok. unfold with_tables, put_clear_settings.
  assert (store_ok {| tables := tables st;
                      conversations_id_seq := conversations_id_seq st |}) as Hsame
    by (by destruct st).
  destruct setting as [p|]; [|done].
  case_bool_decide as Hp; [|done].
  assert (store_ok
            {| tables := (updateConversationClearSettings cid p (tables st)).2;
               conversations_id_seq := conversations_id_seq st |}) as Hupd.
  { unfold updateConversationClearSettings, with_conversations.
    destruct cid as [id|]; [|done]. destruct (int4 id); [|done]. cbn [snd].
    apply store_ok_rewrite; try done; try apply Hok.
    - apply keeps_keys_if, keeps_keys_autoClearAfter.
    - intros c Hc. case_decide; [|done]. by exists p.
    - intros c Hc. by case_decide. }
  by destruct (updateConversationClearSettings cid p (tables st)) as [[[c|]|] d'].
Qed.

Lemma store_ok_upsertUser (id : string) (st : Store) :
  store_ok st → store_ok (with_tables (upsertUser id (tables st)) st).
Proof.
  intros Hok. unfold with_tables, upsertUser.
  assert (∀ u, u ∈ users (tables st) →
               u ∈ (if bool_decide (id ∈ users (tables st))
                    then users (tables st) else users (tables st) ++ [id]))
    as Hmono.
  { intros u Hu. case_bool_decide; [done|]. apply elem_of_app. by left. }
  destruct Hok. split; cbn; try done.
  - eapply list.Forall_impl; [done|]. intros c [? ?]. split; by apply Hmono.
  - eapply list.Forall_impl; [done|]. intros m [? ?]. split; [done|by apply Hmono].
Qed.

Lemma between_new_conversation (now id : Z) (a b : string) :
  between a b (new_conversation now id a b) = true.
Proof.
  unfold between. cbn [new_conversation Conversation.participant1Id
    Conversation.participant2Id].
  by rewrite !bool_decide_eq_true_2 by done.
Qed.

Lemma store_ok_getOrCreateConversation (now : Z) (a b : string) (st : Store) :
  store_ok st → store_ok (getOrCreateConversation now a b st).2.
Proof.
  intros Hok. unfold getOrCreateConversation.
  destruct (List.filter (between a b) (conversations (tables st))) as [|c l] eqn:Hnone;
    [|done].
  pose proof (ok_conversation_seq st Hok) as Hseq.
  destruct (bool_decide (a ∈ users (tables st))
            && bool_decide (b ∈ users (tables st))) eqn:Hfk; cbn [snd].
  - apply andb_true_iff in Hfk as [Ha%bool_decide_eq_true Hb%bool_decide_eq_true].
    split; cbn [tables conversations messages users messages_id_seq
                  conversations_id_seq with_conversations].
    + rewrite fmap_app. apply list.NoDup_app.
      split_and!; [apply Hok| |apply NoDup_singleton].
      intros i (c & -> & Hc)%list_elem_of_fmap. cbn.
      rewrite list_elem_of_singleton. intros Heq.
      apply (proj1 (list.Forall_forall _ _) Hseq) in Hc. lia.
    + apply Forall_app. split.
      * eapply list.Forall_impl; [exact Hseq|]. intros c Hc. cbn beta in *. lia.
      * apply Forall_singleton. cbn. lia.
    + apply Hok.
    + apply Hok.
    + apply Forall_app. split; [apply Hok|]. apply Forall_singleton.
      exists "never". split; [done|]. unfold clear_settings.
      do 3 right. left.
    + apply Forall_app. split; [apply Hok|]. by apply Forall_singleton.
    + apply Forall_app. split; [apply Hok|]. by apply Forall_singleton.
    + eapply list.Forall_impl; [exact (ok_message_refs st Hok)|].
      intros m [Hm ?]. split; [|done]. rewrite fmap_app. apply elem_of_app. by left.
  - destruct Hok. split; cbn; try done.
    eapply list.Forall_impl; [done|]. intros c Hc. cbn beta in *. lia.
Qed.

Lemma store_ok_post_conversation
    (now : Z) (userId : string) (participantId : option string) (st : Store) :
  store_ok st → store_ok (post_conversation now userId participantId st).2.
Proof.
  intros Hok. unfold post_conversation.
  destruct (negb (truthy participantId)); [done|].
  destruct participantId as [p|]; [|done].
  pose proof (store_ok_getOrCreateConversation now userId p st Hok) as H.
  by destruct (getOrCreateConversation now userId p st) as [[c|] st'].
Qed.

Lemma store_ok_apply_op (st : Store) (op : StoreOp) :
  store_ok st → store_ok (apply_op st op).
Proof.
  intros Hok. destruct op; cbn [apply_op].
  - by apply store_ok_upsertUser.
  - by apply store_ok_post_conversation.
  - by apply store_ok_addMessage.
  - by apply store_ok_put.
  - by apply store_ok_clear.
Qed.

Lemma store_ok_empty : store_ok empty_store.
Proof.
  split; cbn; try done; apply NoDup_nil_2.
Qed.

Lemma store_ok_foldl (ops : list StoreOp) (st : Store) :
  store_ok st → store_ok (foldl apply_op st ops).
Proof.
  revert st. induction ops as [|op ops IH]; intros st Hok; [done|].
  cbn [foldl]. by apply IH, store_ok_apply_op.
Qed.

Lemma store_after_ok (ops : list StoreOp) : store_ok (store_after ops).
Proof. apply store_ok_foldl, store_ok_empty. Qed.

(* --------------------------------------------------------------------- *)
(*  Conversations: lookup, creation, settings                            *)
(* --------------------------------------------------------------------- *)

Lemma filter_between_sym (a b : string) (l : list Conversation.t) :
  List.filter (between b a) l = List.filter (between a b) l.
Proof. apply filter_ext. intros c. apply between_sym. Qed.

(** X1.  Whatever [getOrCreateConversation] returns for two participants,
    it returns again, without writing anything, when it is called a second
    time for the same two participants in either order. *)
Theorem getOrCreateConversation_settles
    (now now' : Z) (a b : string) (st st' : Store) (c : Conversation.t) :
  getOrCreateConversation now a b st = (Some c, st') →
  getOrCreateConversation now' a b st' = (Some c, st') ∧
  getOrCreateConversation now' b a st' = (Some c, st').
Proof.
  unfold getOrCreateConversation at 1.
  destruct (List.filter (between a b) (conversations (tables st))) as [|c0 l] eqn:Hf.
  - destruct (bool_decide (a ∈ users (tables st))
              && bool_decide (b ∈ users (tables st))); [|done].
    intros [= <- <-].
    assert (List.filter (between a b)
              (conversations (tables st)
               ++ [new_conversation now (conversations_id_seq st) a b])
            = [new_conversation now (conversations_id_seq st) a b]) as Hnew.
    { rewrite filter_app, Hf. cbn [List.filter].
      by rewrite between_new_conversation. }
    unfold getOrCreateConversation.
    cbn [tables conversations with_conversations].
    by rewrite (filter_between_sym a b), Hnew.
  - intros [= <- <-]. unfold getOrCreateConversation.
    by rewrite (filter_between_sym a b), Hf.
Qed.

Lemma getOrCreateConversation_settles_witness :
  ∃ c st',
    getOrCreateConversation 5 "u1" "u3" small_store = (Some c, st') ∧
    Conversation.id c = 2%Z ∧
    getOrCreateConversation 9 "u3" "u1" st' = (Some c, st').
Proof.
  eexists _, _. split; [reflexivity|]. split; [reflexivity|].
  exact (proj2 (getOrCreateConversation_settles 5 9 "u1" "u3" small_store _ _
                  eq_refl)).
Defined.

(** A call of [getOrCreateConversation] that nothing interrupts is its
    SELECT followed by what it does with the answer. *)
Lemma getOrCreateConversation_statements (now : Z) (a b : string) (st : Store) :
  getOrCreateConversation now a b st
  = create_unless_found (select_conversation a b st) now a b st.
Proof.
  unfold getOrCreateConversation, create_unless_found, select_conversation,
    insert_conversation.
  by destruct (List.filter (between a b) (conversations (tables st))).
Qed.

Lemma insert_conversation_accepted (now : Z) (a b : string) (st : Store) :
  a ∈ users (tables st) → b ∈ users (tables st) →
  insert_conversation now a b st
  = (Some (new_conversation now (conversations_id_seq st) a b),
     {| tables := with_conversations
                    (conversations (tables st)
                     ++ [new_conversation now (conversations_id_seq st) a b])
                    (tables st);
        conversations_id_seq := (conversations_id_seq st + 1)%Z |}).
Proof.
  intros Ha Hb. unfold insert_conversation.
  by rewrite !bool_decide_eq_true_2 by done.
Qed.

(** X2.  Nothing keeps two concurrent calls from creating two rows for one
    pair.  When no row joins users [a] and [b], and a call for (a, b) and a
    call for (b, a) both have their SELECT answered before either INSERT
    is issued, each call inserts and returns a row of its own: the table
    then holds two rows for the pair, with consecutive ids.  The two rows
    stay: every later call, in either order, finds a row and inserts
    nothing.  The same two calls one after the other leave one row. *)
Theorem racing_calls_create_two_conversations
    (now1 now2 : Z) (a b : string) (st : Store) :
  a ∈ users (tables st) → b ∈ users (tables st) →
  select_conversation a b st = None →
  ∃ c1 c2 st',
    racing_getOrCreateConversation now1 a b now2 b a st = (Some c1, Some c2, st') ∧
    Conversation.id c1 = conversations_id_seq st ∧
    Conversation.id c2 = (conversations_id_seq st + 1)%Z ∧
    List.filter (between a b) (conversations (tables st')) = [c1; c2] ∧
    (∀ now3, (getOrCreateConversation now3 a b st').2 = st'
             ∧ (getOrCreateConversation now3 b a st').2 = st') ∧
    List.filter (between a b)
      (conversations
         (tables (getOrCreateConversation now2 b a
                    (getOrCreateConversation now1 a b st).2).2))
    = [c1].
Proof.
  intros Ha Hb Hnone.
  assert (List.filter (between a b) (conversations (tables st)) = []) as Hf
    by (by apply head_None).
  assert (select_conversation b a st = None) as Hnone'.
  { unfold select_conversation. by rewrite (filter_between_sym a b), Hf. }
  set (c1 := new_conversation now1 (conversations_id_seq st) a b).
  set (c2 := new_conversation now2 (conversations_id_seq st + 1) b a).
  assert (List.filter (between a b) (conversations (tables st) ++ [c1]) = [c1])
    as Hone.
  { rewrite filter_app, Hf. cbn [List.filter app]. subst c1.
    by rewrite between_new_conversation. }
  assert (List.filter (between a b) ((conversations (tables st) ++ [c1]) ++ [c2])
          = [c1; c2]) as Htwo.
  { rewrite filter_app, Hone. cbn [List.filter app]. subst c2.
    by rewrite between_sym, between_new_conversation. }
  eexists c1, c2, _. split_and!.
  - unfold racing_getOrCreateConversation. rewrite Hnone, Hnone'.
    cbn [create_unless_found].
    rewrite insert_conversation_accepted by done. fold c1.
    rewrite insert_conversation_accepted by done.
    reflexivity.
  - done.
  - done.
  - cbn [tables conversations with_conversations conversations_id_seq].
    exact Htwo.
  - intros now3. unfold getOrCreateConversation.
    cbn [tables conversations with_conversations conversations_id_seq].
    fold c2. by rewrite (filter_between_sym a b), Htwo.
  - rewrite !getOrCreateConversation_statements. rewrite Hnone.
    cbn [create_unless_found].
    rewrite insert_conversation_accepted by done. fold c1. cbn [snd].
    unfold select_conversation.
    cbn [tables conversations with_conversations].
    rewrite (filter_between_sym a b), Hone. cbn [head create_unless_found snd].
    exact Hone.
Qed.

Lemma racing_calls_create_two_conversations_witness :
  ∃ c1 c2 st',
    racing_getOrCreateConversation 5 "u1" "u3" 6 "u3" "u1" small_store
    = (Some c1, Some c2, st') ∧
    Conversation.id c1 = 2%Z ∧ Conversation.id c2 = 3%Z ∧
    List.filter (between "u1" "u3") (conversations (tables st')) = [c1; c2].
Proof.
  assert ("u1" ∈ users (tables small_store)) as H1 by (by left).
  assert ("u3" ∈ users (tables small_store)) as H3 by (by do 2 right; left).
  destruct (racing_calls_create_two_conversations 5 6 "u1" "u3" small_store
              H1 H3 eq_refl) as (c1 & c2 & st' & Hr & Hi1 & Hi2 & Htwo & _).
  exists c1, c2, st'. split_and!; [exact Hr | exact Hi1 | exact Hi2 | exact Htwo].
Defined.

(** X3.  In every store reached from the empty one, every conversation
    carries one of the four accepted settings and a last-activity
    timestamp, so the classifier selects it exactly when its setting has a
    threshold and more than that threshold has passed since the
    timestamp. *)
Theorem reachable_conversations_classified
    (ops : list StoreOp) (c : Conversation.t) (t : Z) :
  c ∈ conversations (tables (store_after ops)) →
  ∃ p last,
    Conversation.autoClearAfter c = Some p ∧ p ∈ clear_settings ∧
    Conversation.lastMessageAt c = Some last ∧
    (isDue c t = true ↔
     ∃ th, retention_threshold (Some p) = Some th ∧ (t - last > th)%Z).
Proof.
  intros Hc. pose proof (store_after_ok ops) as Hok.
  destruct (proj1 (list.Forall_forall _ _) (ok_settings _ Hok) c Hc) as (p & Hp & Hin).
  destruct (proj1 (list.Forall_forall _ _) (ok_activity _ Hok) c Hc) as (last & Hl).
  exists p, last. split_and!; try done.
  rewrite isDue_strictly_overdue. unfold strictly_overdue. rewrite Hp, Hl. split.
  - intros (th & l & Hth & [= <-] & Hgt). by exists th.
  - intros (th & Hth & Hgt). by exists th, last.
Qed.

Lemma reachable_conversations_classified_witness :
  ∃ c, c ∈ conversations
             (tables (store_after [OpUpsertUser "u1"; OpUpsertUser "u2";
                                   OpPostConversation 0 "u1" (Some "u2");
                                   OpPutClearSettings (Some 1%Z) (Some "24h")]))
       ∧ Conversation.autoClearAfter c = Some "24h"
       ∧ isDue c hours_25 = true.
Proof.
  eexists. split; [left|]. split; [reflexivity|].
  destruct (reachable_conversations_classified
              [OpUpsertUser "u1"; OpUpsertUser "u2";
               OpPostConversation 0 "u1" (Some "u2");
               OpPutClearSettings (Some 1%Z) (Some "24h")]
              _ hours_25 ltac:(left)) as (p & last & Hp & _ & Hl & Hiff).
  apply Hiff. injection Hp as <-. injection Hl as <-.
  eexists. split; [reflexivity|]. reflexivity.
Defined.

Lemma messages_of_unreferenced (cid : Z) (d : Database) :
  Forall (λ m, Message.conversationId m ≠ cid) (messages d) →
  messages_of cid d = [].
Proof.
  unfold messages_of. induction (messages d) as [|m ms IH]; [done|].
  intros [Hm Hms]%list.Forall_cons. cbn [List.filter].
  rewrite bool_decide_eq_false_2 by done. by apply IH.
Qed.

(** X4.  In a store reached from the empty one, when no row joins two
    existing users, [getOrCreateConversation] appends one row for them:
    it has the next serial id, the setting 'never' and no clear timestamp,
    its last activity is the time of creation, it owns no message, and the
    classifier never selects it. *)
Theorem new_conversation_starts_inactive
    (ops : list StoreOp) (now : Z) (a b : string) :
  let st := store_after ops in
  List.filter (between a b) (conversations (tables st)) = [] →
  a ∈ users (tables st) → b ∈ users (tables st) →
  ∃ c st',
    getOrCreateConversation now a b st = (Some c, st') ∧
    conversations (tables st') = conversations (tables st) ++ [c] ∧
    Conversation.id c = conversations_id_seq st ∧
    Conversation.autoClearAfter c = Some "never" ∧
    Conversation.lastClearedAt c = None ∧
    Conversation.lastMessageAt c = Some now ∧
    messages_of (Conversation.id c) (tables st') = [] ∧
    ∀ t, isDue c t = false.
Proof.
  intros st Hnone Ha Hb. pose proof (store_after_ok ops) as Hok. fold st in Hok.
  exists (new_conversation now (conversations_id_seq st) a b). eexists.
  unfold getOrCreateConversation. rewrite Hnone.
  rewrite !bool_decide_eq_true_2 by done. cbn [andb].
  split; [reflexivity|]. split_and!; try done.
  apply messages_of_unreferenced. cbn.
  pose proof (ok_conversation_seq st Hok) as Hseq.
  eapply list.Forall_impl; [exact (ok_message_refs st Hok)|].
  intros m [Hm _] Heq. apply list_elem_of_fmap in Hm as (c & Hc & Hin).
  apply (proj1 (list.Forall_forall _ _) Hseq) in Hin. lia.
Qed.

Lemma new_conversation_starts_inactive_witness :
  ∃ c st',
    getOrCreateConversation 7 "u2" "u3" users_only = (Some c, st') ∧
    Conversation.id c = 1%Z ∧
    isDue c (7 + 365 * one_day) = false.
Proof.
  destruct (new_conversation_starts_inactive
              [OpUpsertUser "u1"; OpUpsertUser "u2"; OpUpsertUser "u3"]
              7 "u2" "u3" eq_refl)
    as (c & st' & Hgoc & _ & Hid & _ & _ & _ & _ & Hdue).
  - vm_compute. right. left.
  - vm_compute. right. right. left.
  - exists c, st'. split; [exact Hgoc|]. split; [exact Hid|apply Hdue].
Defined.

Lemma updated_rows_none (cid : Z) (g : Conversation.t → Conversation.t)
    (l : list Conversation.t) :
  cid ∉ Conversation.id <$> l →
  List.map (λ c, if decide (Conversation.id c = cid) then g c else c) l = l ∧
  List.filter (λ c, bool_decide (Conversation.id c = cid))
    (List.map (λ c, if decide (Conversation.id c = cid) then g c else c) l) = [].
Proof.
  induction l as [|c l IH]; [done|].
  rewrite fmap_cons, not_elem_of_cons. intros [Hne Hout].
  destruct (IH Hout) as [IH1 IH2]. cbn [List.map List.filter].
  rewrite decide_False by done. rewrite bool_decide_eq_false_2 by done.
  by rewrite IH1 at 1.
Qed.

Lemma updated_rows_some (cid : Z) (p : string) (l : list Conversation.t) :
  cid ∈ Conversation.id <$> l →
  ∃ c, head (List.filter (λ c, bool_decide (Conversation.id c = cid))
               (List.map (λ c, if decide (Conversation.id c = cid)
                               then set_autoClearAfter (Some p) c else c) l))
       = Some c
       ∧ Conversation.id c = cid
       ∧ Conversation.autoClearAfter c = Some p.
Proof.
  induction l as [|c l IH]; [by intros ?%elem_of_nil|].
  rewrite fmap_cons. cbn [List.map List.filter].
  destruct (decide (Conversation.id c = cid)) as [Heq|Hne].
  - intros _. cbn [set_autoClearAfter Conversation.id].
    rewrite bool_decide_eq_true_2 by done.
    eexists. split; [reflexivity|]. done.
  - intros [?|Hin]%elem_of_cons; [done|].
    rewrite bool_decide_eq_false_2 by done. by apply IH.
Qed.

(** X5.  The settings route.  A value outside '24h', '1week', '30days',
    'never' (or no value) is answered 400 and writes nothing, whatever the
    id.  For an accepted value: an id that is not a number, or not in the
    range of the integer column, is answered 500 and writes nothing; an id
    in range that no conversation has is answered 404 and writes nothing;
    otherwise the answer is the updated row, every row with that id now
    carries the value, the other rows and all messages are untouched. *)
Theorem put_clear_settings_outcomes
    (id : option Z) (setting : option string) (d : Database) :
  let r := put_clear_settings id setting d in
  ((∀ p, setting = Some p → p ∉ clear_settings) →
   r = (Refused 400 "Invalid auto clear setting", d)) ∧
  (∀ p, setting = Some p → p ∈ clear_settings →
     ((∀ cid, id = Some cid → int4 cid = false) →
      r = (Refused 500 "Failed to update settings", d)) ∧
     (∀ cid, id = Some cid → int4 cid = true →
        (cid ∉ Conversation.id <$> conversations d →
         r.1 = Refused 404 "Conversation not found" ∧
         conversations r.2 = conversations d ∧ messages r.2 = messages d) ∧
        (cid ∈ Conversation.id <$> conversations d →
         ∃ c, r.1 = Sent c ∧ Conversation.id c = cid ∧
              Conversation.autoClearAfter c = Some p ∧
              messages r.2 = messages d ∧
              conversations r.2
              = List.map (λ c, if decide (Conversation.id c = cid)
                               then set_autoClearAfter (Some p) c else c)
                         (conversations d)))).
Proof.
  intros r. subst r. unfold put_clear_settings. split.
  - intros Hbad. destruct setting as [p|]; [|done].
    by rewrite bool_decide_eq_false_2 by by apply Hbad.
  - intros p -> Hp. rewrite bool_decide_eq_true_2 by done.
    unfold updateConversationClearSettings. split.
    + intros Hout. destruct id as [cid|]; [|done].
      by rewrite (Hout cid eq_refl).
    + intros cid -> Hin4. rewrite Hin4. split.
      * intros Hout.
        destruct (updated_rows_none cid (set_autoClearAfter (Some p))
                    (conversations d) Hout) as [Hmap Hfil].
        rewrite Hfil. cbn. by rewrite Hmap.
      * intros Hin.
        destruct (updated_rows_some cid p (conversations d) Hin)
          as (c & Hc & Hid & Hpol).
        rewrite Hc. exists c. done.
Qed.

Lemma put_clear_settings_outcomes_witness :
  put_clear_settings (Some 1%Z) (Some "forever") small_db
  = (Refused 400 "Invalid auto clear setting", small_db) ∧
  put_clear_settings (Some 2147483648%Z) (Some "1week") small_db
  = (Refused 500 "Failed to update settings", small_db) ∧
  put_clear_settings None (Some "1week") small_db
  = (Refused 500 "Failed to update settings", small_db) ∧
  (put_clear_settings (Some 9%Z) (Some "1week") small_db).1
  = Refused 404 "Conversation not found" ∧
  (put_clear_settings (Some 1%Z) (Some "1week") small_db).1
  = Sent (set_autoClearAfter (Some "1week") conv_24h).
Proof.
  assert ("1week" ∈ clear_settings) as Hweek
    by (apply (bool_decide_eq_true_1 _); reflexivity).
  split_and!.
  - apply (proj1 (put_clear_settings_outcomes (Some 1%Z) (Some "forever") small_db)).
    intros p [= <-]. apply (bool_decide_eq_false_1 _). reflexivity.
  - refine (proj1 (proj2 (put_clear_settings_outcomes (Some 2147483648%Z)
                            (Some "1week") small_db) "1week" eq_refl Hweek) _).
    by intros cid [= <-].
  - refine (proj1 (proj2 (put_clear_settings_outcomes None
                            (Some "1week") small_db) "1week" eq_refl Hweek) _).
    by intros cid [=].
  - refine (proj1 (proj1 (proj2 (proj2 (put_clear_settings_outcomes (Some 9%Z)
                            (Some "1week") small_db) "1week" eq_refl Hweek)
                            9%Z eq_refl eq_refl) _)).
    apply (bool_decide_eq_false_1 _). reflexivity.
  - reflexivity.
Defined.

(* --------------------------------------------------------------------- *)
(*  Messages and the activity clock                                      *)
(* --------------------------------------------------------------------- *)

Lemma isDue_after_activity (c : Conversation.t) (now t th : Z) :
  Conversation.lastMessageAt c = Some now →
  isDue c t = true →
  ∃ th, retention_threshold (Conversation.autoClearAfter c) = Some th
        ∧ (t - now > th)%Z.
Proof.
  intros Hl (th' & last & Hth & Hlast & Hgt)%isDue_strictly_overdue.
  rewrite Hl in Hlast. injection Hlast as <-. by exists th'.
Qed.

Lemma In_map_if (cid : Z) (g : Conversation.t → Conversation.t)
    (l : list Conversation.t) (c' : Conversation.t) :
  In c' (List.map (λ c, if decide (Conversation.id c = cid) then g c else c) l) →
  (∃ c, In c l ∧ Conversation.id c = cid ∧ c' = g c) ∨
  (In c' l ∧ Conversation.id c' ≠ cid).
Proof.
  intros (c & Hc & Hin)%in_map_iff. case_decide; subst c'.
  - left. by exists c.
  - right. done.
Qed.

(** X6.  A stored message restarts the retention clock.  When
    [addMessage] succeeds, reading [now] from the server's clock, the row
    it returns has the next serial id and the conversation, sender and
    content of the request, and is appended to the messages table; the
    rows of other conversations are untouched, and every row of the
    message's conversation has [now] as last activity: the classifier
    does not select it at any time up to [now] plus its threshold. *)
Theorem addMessage_restarts_clock
    (created now : Z) (ins : InsertMessage.t) (d d' : Database) (row : Message.t) :
  addMessage created now ins d = (Some row, d') →
  Message.id row = messages_id_seq d ∧
  Message.conversationId row = InsertMessage.conversationId ins ∧
  Message.senderId row = InsertMessage.senderId ins ∧
  Message.content row = InsertMessage.content ins ∧
  messages d' = messages d ++ [row] ∧
  ∀ c', c' ∈ conversations d' →
    if decide (Conversation.id c' = InsertMessage.conversationId ins)
    then Conversation.lastMessageAt c' = Some now ∧
         ∀ t th, retention_threshold (Conversation.autoClearAfter c') = Some th →
                 (t ≤ now + th)%Z → isDue c' t = false
    else c' ∈ conversations d.
Proof.
  unfold addMessage. destruct (references_ok d ins); [|done].
  intros [= <- <-]. split_and!; try done.
  cbn [conversations]. intros c' Hin%list_elem_of_In.
  apply In_map_if in Hin as [(c & Hc & Hid & ->)|[Hc Hne]].
  - cbn [Conversation.set_lastMessageAt Conversation.id].
    rewrite decide_True by done. split; [done|].
    intros t th Hth Hle. apply not_true_is_false. intros Hdue.
    apply (isDue_after_activity _ now t th) in Hdue as (th' & Hth' & Hgt); [|done].
    cbn in Hth, Hth'. rewrite Hth in Hth'. injection Hth' as <-. lia.
  - rewrite decide_False by done. by apply list_elem_of_In.
Qed.

Lemma addMessage_restarts_clock_witness :
  isDue conv_24h hours_25 = true ∧
  ∃ row d',
    addMessage (hours_25 - 3) hours_25 hi_from_u3 small_db = (Some row, d') ∧
    Message.id row = 3%Z ∧
    getConversationsToClean (hours_25 + one_day) d' = [].
Proof.
  split; [reflexivity|].
  destruct (addMessage (hours_25 - 3) hours_25 hi_from_u3 small_db) as [r d'] eqn:E.
  vm_compute in E. injection E as <- <-.
  eexists _, _. split; [reflexivity|].
  pose proof (addMessage_restarts_clock (hours_25 - 3) hours_25 hi_from_u3
                small_db _ _ eq_refl) as (Hid & _).
  split; [exact Hid|reflexivity].
Defined.

Lemma post_message_rejected (created now : Z) (ins : InsertMessage.t) (s : Server) :
  references_ok (db s) ins = false →
  post_message created now ins s
  = (Return (Failure 500 "Failed to send message"),
     upd_console (λ ls, ls ++ [LogSendingMessageError])
       (upd_db (λ _, (addMessage created now ins (db s)).2) s)).
Proof.
  intros Href. unfold post_message, try_catch.
  unfold mbind at 1, M_bind at 1. unfold storage_addMessage, addMessage.
  rewrite Href. reflexivity.
Qed.

(** X7.  [addMessage] for a conversation that does not exist, or from a
    sender who is not a user, stores nothing: no row is returned, the
    messages and the conversations are as before, and only the sequence
    has advanced.  The route that called it then answers 500 without
    writing a frame to any socket. *)
Theorem rejected_message_leaves_no_trace
    (created now : Z) (ins : InsertMessage.t) (s : Server) :
  InsertMessage.conversationId ins ∉ Conversation.id <$> conversations (db s)
  ∨ InsertMessage.senderId ins ∉ users (db s) →
  (addMessage created now ins (db s)).1 = None ∧
  messages (addMessage created now ins (db s)).2 = messages (db s) ∧
  conversations (addMessage created now ins (db s)).2 = conversations (db s) ∧
  result (post_message created now ins) s
  = Return (Failure 500 "Failed to send message") ∧
  wire (exec (post_message created now ins) s) = wire s ∧
  messages (db (exec (post_message created now ins) s)) = messages (db s).
Proof.
  intros Hbad.
  assert (references_ok (db s) ins = false) as Href.
  { unfold references_ok. apply andb_false_iff.
    destruct Hbad; [left|right]; by apply bool_decide_eq_false_2. }
  unfold result, exec. rewrite post_message_rejected by done.
  unfold addMessage. rewrite Href. done.
Qed.

Lemma rejected_message_leaves_no_trace_witness :
  result (post_message 4 5 {| InsertMessage.conversationId := 9;
                              InsertMessage.senderId := "u3";
                              InsertMessage.content := "hi";
                              InsertMessage.messageType := Undefined;
                              InsertMessage.encrypted := Undefined |}) two_clients
  = Return (Failure 500 "Failed to send message").
Proof.
  refine (proj1 (proj2 (proj2 (proj2
    (rejected_message_leaves_no_trace 4 5 _ two_clients _))))).
  left. apply (bool_decide_eq_false_1 _). reflexivity.
Defined.

(** X8.  The message route when the insert is accepted and no open socket
    throws: one row is appended to the messages table, with the next
    serial id and the conversation, sender and content of the request; the
    route answers 200 with that row, and every open socket of the
    connection map has been written one frame per entry, of type
    'new-message' (the 'broadcast' tag is overwritten by the event's own
    type), carrying that same row and the conversation id of the request;
    the connection map and the sockets are unchanged. *)
Theorem post_message_stores_then_notifies
    (created now : Z) (ins : InsertMessage.t) (s : Server) :
  references_ok (db s) ins = true →
  Forall (accepts s) (open_clients s) →
  let s' := exec (post_message created now ins) s in
  ∃ row,
    let frame := Msg.broadcast_of (InsertMessage.conversationId ins)
                   (new_message_event row) in
    result (post_message created now ins) s
    = Return (Json 200 (Message.to_json row)) ∧
    messages (db s') = messages (db s) ++ [row] ∧
    Message.id row = messages_id_seq (db s) ∧
    Message.conversationId row = InsertMessage.conversationId ins ∧
    Message.senderId row = InsertMessage.senderId ins ∧
    Message.content row = InsertMessage.content ins ∧
    wire s' = wire s ++ copies frame (open_clients s) ∧
    Msg.type frame = Some "new-message" ∧
    Msg.conversationId frame = Some (InsertMessage.conversationId ins) ∧
    Msg.data frame = Some (Message.to_json row) ∧
    connectedClients s' = connectedClients s ∧
    sockets s' = sockets s.
Proof.
  intros Hok Hall s'. subst s'. exists (inserted_row created (db s) ins).
  unfold result, exec. rewrite post_message_accepted by done.
  split_and!; try done. cbn. unfold addMessage. by rewrite Hok.
Qed.

Lemma post_message_stores_then_notifies_witness :
  ∃ row,
    result (post_message 4 5 hi_from_u3) one_closed
    = Return (Json 200 (Message.to_json row)) ∧
    Message.id row = 3%Z ∧
    (fst <$> wire (exec (post_message 4 5 hi_from_u3) one_closed)) = [1; 2].
Proof.
  assert (Forall (accepts one_closed) (open_clients one_closed)) as Hall
    by (repeat constructor).
  destruct (post_message_stores_then_notifies 4 5 hi_from_u3 one_closed
              eq_refl Hall) as (row & Hr & _ & Hid & _ & _ & _ & Hw & _).
  exists row. split; [exact Hr|]. split; [exact Hid|]. rewrite Hw. reflexivity.
Defined.

Lemma messages_of_clear_other (now cid cid' : Z) (d : Database) :
  cid' ≠ cid →
  messages_of cid' (clearConversationMessages now cid d) = messages_of cid' d.
Proof.
  intros Hne. unfold messages_of. cbn [clearConversationMessages messages].
  induction (messages d) as [|m ms IH]; [done|]. cbn [List.filter].
  destruct (decide (Message.conversationId m = cid)) as [Heq|Hneq].
  - rewrite (bool_decide_eq_true_2 _ Heq). cbn [negb].
    rewrite bool_decide_eq_false_2 by congruence. done.
  - rewrite (bool_decide_eq_false_2 _ Hneq). cbn [negb List.filter].
    by rewrite IH.
Qed.

Lemma messages_of_clear_same (now cid : Z) (d : Database) :
  messages_of cid (clearConversationMessages now cid d) = [].
Proof.
  apply messages_of_unreferenced. cbn [clearConversationMessages messages].
  apply List.Forall_forall. intros m [_ Hm]%filter_In.
  apply negb_true_iff in Hm. by apply bool_decide_eq_false in Hm.
Qed.

(** X9.  [clearConversationMessages] empties one conversation and nothing
    else: the messages of every other conversation are as before, and for
    every clock value the ids [getConversationsToClean] selects are the
    same before and after.  Clearing does not restart the retention clock:
    a conversation that was due is still due. *)
Theorem clear_empties_one_conversation (now cid : Z) (d : Database) :
  messages_of cid (clearConversationMessages now cid d) = [] ∧
  (∀ cid', cid' ≠ cid →
     messages_of cid' (clearConversationMessages now cid d) = messages_of cid' d) ∧
  (∀ t, Conversation.id <$> getConversationsToClean t (clearConversationMessages now cid d)
        = Conversation.id <$> getConversationsToClean t d) ∧
  users (clearConversationMessages now cid d) = users d ∧
  length (conversations (clearConversationMessages now cid d))
  = length (conversations d).
Proof.
  split_and!.
  - apply messages_of_clear_same.
  - intros cid'. apply messages_of_clear_other.
  - intros t. apply due_ids_clear.
  - done.
  - cbn. apply length_map.
Qed.

Lemma isDue_later (c : Conversation.t) (t t' : Z) :
  isDue c t = true → (t ≤ t')%Z → isDue c t' = true.
Proof.
  rewrite !isDue_strictly_overdue. intros (th & last & Hth & Hl & Hgt) Hle.
  exists th, last. split_and!; [done..|lia].
Qed.

(** X10.  Selection is monotone in time: a conversation that
    [getConversationsToClean] selects at one clock value is selected at
    every later one, as long as the store is unchanged; and a conversation
    it selects has had no activity for more than 24 hours. *)
Theorem selected_stays_selected
    (d : Database) (t t' : Z) (c : Conversation.t) :
  c ∈ getConversationsToClean t d → (t ≤ t')%Z →
  c ∈ getConversationsToClean t' d ∧
  ∃ last, Conversation.lastMessageAt c = Some last ∧ (t - last > one_day)%Z.
Proof.
  unfold getConversationsToClean.
  intros [Hin Hdue]%list_elem_of_In%filter_In Hle. split.
  - apply list_elem_of_In, filter_In. split; [done|]. by apply (isDue_later c t).
  - apply isDue_strictly_overdue in Hdue as (th & last & Hth & Hl & Hgt).
    exists last. split; [done|].
    unfold retention_threshold in Hth.
    destruct (Conversation.autoClearAfter c) as [p|]; [|done].
    unfold one_day. repeat case_decide; simplify_eq; lia.
Qed.

Lemma selected_stays_selected_witness :
  conv_24h ∈ getConversationsToClean (hours_25 + one_day) small_db.
Proof.
  refine (proj1 (selected_stays_selected small_db hours_25 (hours_25 + one_day)
                   conv_24h _ _)).
  - vm_compute. left.
  - vm_compute. discriminate.
Defined.

(* --------------------------------------------------------------------- *)
(*  The message handler: every outcome                                   *)
(* --------------------------------------------------------------------- *)

(** What the signaling branch does when the target's socket is open and
    its [send] throws: the exception leaves the branch. *)
Lemma handle_signaling_thrown
    (ws tws : nat) (data : Msg.t) (s : Server) (T : string) :
  truthy (Ws.userId (sockets s ws)) = true →
  Msg.target data = Some T → T ≠ "" →
  JsMap.get T (connectedClients s) = Some tws →
  Ws.readyState (sockets s tws) = OPEN →
  ¬ accepts s tws →
  handle_signaling ws data s
  = (Throw,
     upd_console
       (λ ls, ls ++ [LogHandling (Msg.type data) (Ws.userId (sockets s ws)) (Some T)])
       s).
Proof.
  intros Hu Ht HT Hget Hopen Hacc. unfold accepts in Hacc.
  apply not_false_is_true in Hacc.
  unfold_handler handle_signaling.
  rewrite Hu, Ht. simpl. rewrite bool_decide_eq_true_2 by done. simpl.
  rewrite Hget. simpl. rewrite decide_True by done. simpl.
  by rewrite Hacc.
Qed.

(** The handler ends in one of five ways.  Apart from the console, either
    nothing changes (a frame that does not parse, a frame without a route,
    an unreachable target, a send that throws), or the socket is bound to
    a non-empty identity, or one frame is written to the open socket the
    target is mapped to. *)
Lemma on_message_cases (ws : nat) (raw : option Msg.t) (s : Server) :
  ∃ lines,
    on_message ws raw s = (Return (), upd_console (λ ls, ls ++ lines) s)
    ∨ (∃ uid, uid ≠ "" ∧
         on_message ws raw s
         = (Return (),
            upd_console (λ ls, ls ++ lines)
              (upd_clients (JsMap.set uid ws)
                 (upd_socket ws (Ws.set_userId (Some uid)) s))))
    ∨ (∃ data T tws lines',
         raw = Some data ∧ is_auth data = false ∧
         truthy (Ws.userId (sockets s ws)) = true ∧
         Msg.target data = Some T ∧ T ≠ "" ∧
         JsMap.get T (connectedClients s) = Some tws ∧
         Ws.readyState (sockets s tws) = OPEN ∧
         on_message ws raw s
         = (Return (),
            upd_console (λ ls, ls ++ lines)
              (upd_wire (λ w, w ++ [(tws, Msg.with_from (Ws.userId (sockets s ws)) data)])
                 (upd_console (λ ls, ls ++ lines') s)))).
Proof.
  destruct raw as [data|]; [|exists [LogMessageError]; by left].
  destruct (is_auth data) eqn:Ha.
  - rewrite on_message_auth by done.
    destruct (Msg.userId data) as [uid|] eqn:Hu.
    + exists [LogUserConnected uid]. right. left. exists uid. split; [|done].
      unfold is_auth in Ha. rewrite Hu in Ha. cbn in Ha.
      apply andb_true_iff in Ha as [Hne%bool_decide_eq_true _]. done.
    + exists []. left. cbn. f_equal. destruct s. unfold upd_console. cbn.
      by rewrite app_nil_r.
  - rewrite on_message_signaling by done. unfold try_catch.
    destruct (truthy (Ws.userId (sockets s ws)) && truthy (Msg.target data)) eqn:Hroute.
    + apply andb_true_iff in Hroute as [Hu Ht].
      destruct (Msg.target data) as [T|] eqn:HT; [|done].
      assert (T ≠ "") as HTne by (by apply bool_decide_eq_true in Ht).
      destruct (JsMap.get T (connectedClients s)) as [tws|] eqn:Hget.
      * destruct (decide (Ws.readyState (sockets s tws) = OPEN)) as [Ho|Hc].
        -- destruct (Ws.sendThrows (sockets s tws)) eqn:Hthrow.
           ++ rewrite (handle_signaling_thrown ws tws data s T); try done;
                [|unfold accepts; by rewrite Hthrow].
              eexists. left. unfold console_log, modify, upd_console. cbn.
              by rewrite <- app_assoc.
           ++ rewrite (handle_signaling_forward ws tws data s T) by done.
              exists [LogForwarded (Some T)]. right. right.
              by exists data, T, tws,
                [LogHandling (Msg.type data) (Ws.userId (sockets s ws)) (Some T)].
        -- rewrite (handle_signaling_unreachable ws data s T); try done.
           ++ eexists. by left.
           ++ intros tws0 Htws0. rewrite Hget in Htws0. by injection Htws0 as <-.
      * rewrite (handle_signaling_unreachable ws data s T); try done.
        -- eexists. by left.
        -- intros tws0 Htws0. by rewrite Hget in Htws0.
    + rewrite handle_signaling_invalid by done. eexists. by left.
Qed.

Lemma elem_of_keys_set_mono {V : Type} (m : JsMap.t V) (k k' : string) (v : V) :
  k' ∈ JsMap.keys m → k' ∈ JsMap.keys (JsMap.set k v m).
Proof. intros Hin. apply elem_of_keys_set. by right. Qed.

(** X11.  Whatever arrives on a socket, the message handler returns
    without throwing, leaves the store, the ready state and the transport
    of every socket alone, removes no key from the connection map, and
    writes at most one frame; a frame it writes goes to an open socket
    that the connection map holds under the frame's target, and its [from]
    is the identity bound to the handling socket. *)
Theorem on_message_is_contained (ws : nat) (raw : option Msg.t) (s : Server) :
  let s' := exec (on_message ws raw) s in
  result (on_message ws raw) s = Return () ∧
  db s' = db s ∧
  next_socket s' = next_socket s ∧
  (∀ c, Ws.readyState (sockets s' c) = Ws.readyState (sockets s c)
        ∧ Ws.sendThrows (sockets s' c) = Ws.sendThrows (sockets s c)) ∧
  (∀ k, k ∈ JsMap.keys (connectedClients s) → k ∈ JsMap.keys (connectedClients s')) ∧
  (wire s' = wire s ∨
   ∃ tws frame T,
     wire s' = wire s ++ [(tws, frame)] ∧
     Msg.target frame = Some T ∧
     JsMap.get T (connectedClients s) = Some tws ∧
     Ws.readyState (sockets s tws) = OPEN ∧
     Msg.from frame = Ws.userId (sockets s ws) ∧
     truthy (Msg.from frame) = true).
Proof.
  intros s'. subst s'. unfold result, exec.
  destruct (on_message_cases ws raw s)
    as (lines & [->|[(uid & Huid & ->)|(data & T & tws & lines' & -> & Ha & Hu & HT
                                        & HTne & Hget & Hopen & ->)]]);
    cbn [fst snd].
  - split_and!; try done. by left.
  - split_and!; try done.
    + intros c. cbn. by case_decide.
    + intros k Hk. cbn. by apply elem_of_keys_set_mono.
    + by left.
  - split_and!; try done. right.
    exists tws, (Msg.with_from (Ws.userId (sockets s ws)) data), T. done.
Qed.

(** X12.  A send that throws in the relay is caught by the handler: when
    the target's socket is open but its [send] throws, the handler still
    returns normally, no frame is written, the connection map and every
    socket are unchanged, and the console shows the error after the
    'Handling' line. *)
Theorem relay_send_failure_is_caught
    (s : Server) (ws tws : nat) (S T : string) (data : Msg.t) :
  Ws.userId (sockets s ws) = Some S → S ≠ "" →
  is_auth data = false →
  Msg.target data = Some T → T ≠ "" →
  JsMap.get T (connectedClients s) = Some tws →
  Ws.readyState (sockets s tws) = OPEN →
  ¬ accepts s tws →
  let s' := exec (on_message ws (Some data)) s in
  result (on_message ws (Some data)) s = Return () ∧
  wire s' = wire s ∧
  sockets s' = sockets s ∧
  connectedClients s' = connectedClients s ∧
  console s' = console s ++
    [LogHandling (Msg.type data) (Some S) (Some T); LogMessageError].
Proof.
  intros HS HSne Ha Ht HT Hget Hopen Hacc s'. subst s'. unfold exec, result.
  rewrite on_message_signaling by done. unfold try_catch.
  rewrite (handle_signaling_thrown ws tws data s T); try done.
  - cbn. rewrite HS. by rewrite <- app_assoc.
  - rewrite HS. by apply truthy_some.
Qed.

Lemma relay_send_failure_is_caught_witness :
  result (on_message 1 (Some (frame_to "offer" "u1"))) one_broken = Return () ∧
  wire (exec (on_message 1 (Some (frame_to "offer" "u1"))) one_broken) = [] ∧
  JsMap.get "u2"
    (connectedClients (exec (on_message 1 (Some (frame_to "offer" "u1"))) one_broken))
  = Some 1.
Proof.
  assert (¬ accepts one_broken 0) as Hbad by (vm_compute; discriminate).
  pose proof (relay_send_failure_is_caught one_broken 1 0 "u2" "u1"
                (frame_to "offer" "u1") eq_refl ltac:(discriminate) eq_refl
                eq_refl ltac:(discriminate) eq_refl eq_refl Hbad)
    as (Hr & Hw & _ & Hm & _).
  split_and!; [exact Hr | rewrite Hw; reflexivity | rewrite Hm; reflexivity].
Defined.

(* --------------------------------------------------------------------- *)
(*  Registration life cycle                                              *)
(* --------------------------------------------------------------------- *)

Section JsMap_more.
Context {V : Type}.
Implicit Types (m : JsMap.t V) (k : string) (v : V).

Lemma delete_fresh m k : k ∉ JsMap.keys m → JsMap.delete k m = m.
Proof.
  unfold JsMap.keys. induction m as [|[k' v'] m IH]; [done|].
  rewrite fmap_cons, not_elem_of_cons. cbn. intros [Hne Hout].
  rewrite decide_False by done. by rewrite IH.
Qed.

Lemma delete_set_fresh m k v :
  k ∉ JsMap.keys m → JsMap.delete k (JsMap.set k v m) = m.
Proof.
  unfold JsMap.keys. induction m as [|[k' v'] m IH].
  - intros _. cbn. by rewrite decide_True.
  - rewrite fmap_cons, not_elem_of_cons. cbn [fst]. intros [Hne Hout].
    cbn [JsMap.set]. rewrite decide_False by done.
    cbn [JsMap.delete]. rewrite decide_False by done. by rewrite IH.
Qed.

Lemma set_set m k v1 v2 :
  JsMap.set k v2 (JsMap.set k v1 m) = JsMap.set k v2 m.
Proof.
  induction m as [|[k' v'] m IH]; cbn.
  - by rewrite decide_True.
  - destruct (decide (k' = k)) as [->|Hne]; cbn.
    + by rewrite decide_True.
    + rewrite decide_False by done. by rewrite IH.
Qed.

Lemma elem_of_values_set m k v v' :
  v' ∈ JsMap.values (JsMap.set k v m) → v' = v ∨ v' ∈ JsMap.values m.
Proof.
  unfold JsMap.values. induction m as [|[k0 v0] m IH]; cbn.
  - rewrite list_elem_of_singleton. tauto.
  - destruct (decide (k0 = k)) as [->|Hne]; cbn; rewrite !elem_of_cons.
    + tauto.
    + intros [?|?]; [tauto|]. destruct IH; tauto.
Qed.

Lemma get_elem_of m k v : JsMap.get k m = Some v → (k, v) ∈ m.
Proof.
  induction m as [|[k0 v0] m IH]; cbn; [done|].
  destruct (decide (k0 = k)) as [->|Hne].
  - intros [= ->]. left.
  - intros Hget. right. by apply IH.
Qed.

Lemma elem_of_set m k v (e : string * V) :
  e ∈ JsMap.set k v m → e = (k, v) ∨ e ∈ m.
Proof.
  induction m as [|[k0 v0] m IH]; cbn.
  - rewrite list_elem_of_singleton. tauto.
  - destruct (decide (k0 = k)) as [->|Hne]; rewrite !elem_of_cons; [tauto|].
    intros [?|?]; [tauto|]. destruct IH; tauto.
Qed.

Lemma elem_of_delete m k (e : string * V) :
  e ∈ JsMap.delete k m → e ∈ m.
Proof.
  induction m as [|[k0 v0] m IH]; cbn; [done|].
  destruct (decide (k0 = k)) as [->|Hne]; rewrite ?elem_of_cons; [tauto|].
  intros [?|?]; tauto.
Qed.

Lemma get_delete_some m k k' v :
  JsMap.get k' (JsMap.delete k m) = Some v → k' ≠ k ∧ JsMap.get k' m = Some v.
Proof.
  destruct (decide (k = k')) as [->|Hne].
  - by rewrite get_delete_eq.
  - rewrite get_delete_ne by done. intros ?. split; [congruence|done].
Qed.
End JsMap_more.

Lemma upd_console_nil (s : Server) : upd_console (λ ls, ls ++ []) s = s.
Proof. destruct s. unfold upd_console. cbn. by rewrite app_nil_r. Qed.

(** The message route touches the store, the wire and the console only. *)
Lemma post_message_shape (created now : Z) (ins : InsertMessage.t) (s : Server) :
  ∃ r frames lines d',
    post_message created now ins s
    = (r, upd_console (λ ls, ls ++ lines) (written frames (upd_db (λ _, d') s))).
Proof.
  destruct (references_ok (db s) ins) eqn:Href.
  - rewrite post_message_stored by done.
    unfold try_catch. unfold mbind at 1, M_bind at 1.
    rewrite broadcastMessage_unfold.
    destruct (forEach_writes_only (InsertMessage.conversationId ins)
                (new_message_event (inserted_row created (db s) ins))
                (connectedClients s)
                (upd_db (λ _, (addMessage created now ins (db s)).2) s))
      as [frames Hf].
    cbn [connectedClients upd_db] in *.
    destruct (forEach _ _ _) as [[[]|] s1]; cbn [snd] in Hf; subst s1.
    + eexists _, frames, [], _. cbn. by rewrite upd_console_nil.
    + eexists _, frames, [LogSendingMessageError], _. reflexivity.
  - rewrite post_message_rejected by done.
    eexists _, [], [LogSendingMessageError], _. by rewrite written_nil.
Qed.

Lemma post_message_relay_state (created now : Z) (ins : InsertMessage.t) (s : Server) :
  sockets (exec (post_message created now ins) s) = sockets s ∧
  next_socket (exec (post_message created now ins) s) = next_socket s ∧
  connectedClients (exec (post_message created now ins) s) = connectedClients s.
Proof.
  unfold exec.
  by destruct (post_message_shape created now ins s) as (r & frames & lines & d' & ->).
Qed.

Lemma live_lt (s : Server) (ws : nat) : live s ws = true → ws < next_socket s.
Proof. unfold live. intros [H%bool_decide_eq_true _]%andb_true_iff. done. Qed.

Lemma live_not_closed (s : Server) (ws : nat) :
  live s ws = true → Ws.readyState (sockets s ws) ≠ CLOSED.
Proof.
  unfold live. intros [_ H%negb_true_iff]%andb_true_iff.
  by apply bool_decide_eq_false in H.
Qed.

Lemma relay_ok_console (s : Server) (f : list LogLine → list LogLine) :
  relay_ok s → relay_ok (upd_console f s).
Proof. intros [H1 H2]. by split. Qed.

Lemma relay_ok_bind (s : Server) (ws : nat) (uid : string) :
  relay_ok s → live s ws = true → uid ≠ "" →
  relay_ok (upd_clients (JsMap.set uid ws)
              (upd_socket ws (Ws.set_userId (Some uid)) s)).
Proof.
  intros [H1 H2] Hlive Huid. split; cbn.
  - intros k v [[= -> ->]|Hin]%elem_of_set.
    + rewrite decide_True by done. cbn.
      split_and!; [done|by apply live_lt|by apply bool_decide_eq_true_2].
    + destruct (H1 k v Hin) as (? & ? & ?). split_and!; [done..|].
      case_decide; [|done]. cbn. by apply bool_decide_eq_true_2.
  - intros k v Hget Hid.
    destruct (decide (uid = k)) as [->|Hne].
    + rewrite get_set_eq in Hget. injection Hget as <-.
      rewrite decide_True by done. cbn. by apply live_not_closed.
    + rewrite get_set_ne in Hget by done.
      destruct (decide (v = ws)) as [->|Hv].
      * cbn in Hid. congruence.
      * by apply (H2 k).
Qed.

Lemma relay_ok_on_message (s : Server) (ws : nat) (raw : option Msg.t) :
  relay_ok s → live s ws = true → relay_ok (exec (on_message ws raw) s).
Proof.
  intros Hok Hlive. unfold exec.
  destruct (on_message_cases ws raw s)
    as (lines & [->|[(uid & Huid & ->)|(data & T & tws & lines' & -> & _ & _ & _
                                        & _ & _ & _ & ->)]]);
    cbn [snd].
  - by apply relay_ok_console.
  - by apply relay_ok_console, relay_ok_bind.
  - apply relay_ok_console. destruct Hok as [H1 H2]. by split.
Qed.

Lemma relay_ok_close (s : Server) (ws : nat) :
  relay_ok s → relay_ok (exec (close_event ws) s).
Proof.
  intros [H1 H2]. unfold exec, close_event. unfold_handler on_close. cbn.
  rewrite decide_True by done. cbn.
  destruct (Ws.userId (sockets s ws)) as [uid|] eqn:Hu; cbn.
  - case_bool_decide as Huid; cbn.
    + split; cbn.
      * intros k v Hin%elem_of_delete. destruct (H1 k v Hin) as (? & ? & ?).
        split_and!; [done..|]. case_decide; [|done]. by subst.
      * intros k v [Hne Hget]%get_delete_some Hid.
        destruct (decide (v = ws)) as [->|Hv].
        -- cbn in Hid. congruence.
        -- by apply (H2 k).
    + split; cbn.
      * intros k v Hin. destruct (H1 k v Hin) as (? & ? & ?).
        split_and!; [done..|]. case_decide; [|done]. by subst.
      * intros k v Hget Hid.
        destruct (decide (v = ws)) as [->|Hv].
        -- cbn in Hid. rewrite Hu in Hid.
           injection Hid as <-.
           destruct (H1 uid ws (get_elem_of _ _ _ Hget)) as (Hk & _). 
           by destruct Hk.
        -- by apply (H2 k).
  - split; cbn.
    + intros k v Hin. destruct (H1 k v Hin) as (? & ? & ?).
      split_and!; [done..|]. case_decide; [|done]. by subst.
    + intros k v Hget Hid.
      destruct (decide (v = ws)) as [->|Hv].
      * cbn in Hid. congruence.
      * by apply (H2 k).
Qed.

Lemma relay_ok_step (s : Server) (e : Event) : relay_ok s → relay_ok (step s e).
Proof.
  intros Hok. destruct e as [|ws raw|ws|ws|ws|ws broken|created now ins]; cbn [step].
  - destruct Hok as [H1 H2]. split; cbn.
    + intros k v Hin. destruct (H1 k v Hin) as (? & Hlt & ?).
      split_and!; [done|lia|]. rewrite decide_False by lia. done.
    + intros k v Hget. destruct (H1 k v (get_elem_of _ _ _ Hget)) as (_ & Hlt & _).
      rewrite decide_False by lia. by apply H2.
  - destruct (live s ws) eqn:Hl; [|done]. by apply relay_ok_on_message.
  - destruct (live s ws) eqn:Hl; [|done]. destruct Hok as [H1 H2]. split; cbn.
    + intros k v Hin. destruct (H1 k v Hin) as (? & ? & ?).
      split_and!; [done..|]. by case_decide; subst.
    + intros k v Hget Hid. destruct (decide (v = ws)) as [->|Hv]; [done|].
      by apply (H2 k).
  - destruct (live s ws) eqn:Hl; [|done]. by apply relay_ok_close.
  - destruct (live s ws) eqn:Hl; [|done]. by apply relay_ok_console.
  - destruct (live s ws) eqn:Hl; [|done]. destruct Hok as [H1 H2]. split; cbn.
    + intros k v Hin. destruct (H1 k v Hin) as (? & ? & ?).
      split_and!; [done..|]. by case_decide; subst.
    + intros k v Hget Hid. destruct (decide (v = ws)) as [->|Hv]; by apply (H2 k).
  - destruct (post_message_relay_state created now ins s) as (Hs & Hn & Hc).
    destruct Hok as [H1 H2]. split.
    + intros k v. rewrite Hs, Hn, Hc. apply H1.
    + intros k v. rewrite Hs, Hc. apply H2.
Qed.

Lemma relay_ok_run (history : list Event) (s : Server) :
  relay_ok s → relay_ok (run history s).
Proof.
  revert s. induction history as [|e history IH]; intros s Hok; [done|].
  cbn. by apply IH, relay_ok_step.
Qed.

Lemma relay_ok_reachable (history : list Event) (d : Database) :
  relay_ok (run history (init d)).
Proof.
  apply relay_ok_run. split; cbn.
  - by intros k v ?%elem_of_nil.
  - done.
Qed.

(** X13.  After every history of the server, each entry of the connection
    map has a non-empty key and names a socket that has connected and that
    carries an identity: a lookup never yields a socket that does not
    exist or that never authenticated. *)
Theorem registered_sockets_are_authenticated
    (history : list Event) (d : Database) (k : string) (ws : nat) :
  JsMap.get k (connectedClients (run history (init d))) = Some ws →
  k ≠ "" ∧
  ws < next_socket (run history (init d)) ∧
  ∃ u, Ws.userId (sockets (run history (init d)) ws) = Some u ∧ u ≠ "".
Proof.
  intros Hget%get_elem_of.
  destruct (ok_entries _ (relay_ok_reachable history d) k ws Hget) as (Hk & Hlt & Hu).
  split_and!; [done..|].
  destruct (Ws.userId _) as [u|]; [|done]. exists u. split; [done|].
  by apply bool_decide_eq_true in Hu.
Qed.

Lemma registered_sockets_are_authenticated_witness :
  JsMap.get "u1" (connectedClients one_closed) = Some 0 ∧
  Ws.userId (sockets one_closed 0) = Some "u0".
Proof.
  split; [reflexivity|].
  destruct (registered_sockets_are_authenticated
              [EvConnection; EvConnection; EvConnection;
               EvMessage 0 (Some (auth_frame "u1"));
               EvMessage 1 (Some (auth_frame "u2"));
               EvMessage 2 (Some (auth_frame "u3"));
               EvMessage 0 (Some (auth_frame "u0"));
               EvClose 0] small_db "u1" 0 eq_refl) as (_ & _ & u & Hu & _).
  reflexivity.
Defined.

(** X14.  After every history of the server, an identity that is mapped
    to a closed socket is not the identity that socket carries: a stale
    entry exists only where a socket authenticated again under another
    identity before it closed.  For a socket that kept one identity, the
    close handler has removed its entry. *)
Theorem stale_entry_needs_second_identity
    (history : list Event) (d : Database) (k : string) (ws : nat) :
  JsMap.get k (connectedClients (run history (init d))) = Some ws →
  Ws.readyState (sockets (run history (init d)) ws) = CLOSED →
  Ws.userId (sockets (run history (init d)) ws) ≠ Some k.
Proof.
  intros Hget Hclosed Hid.
  by apply (ok_current _ (relay_ok_reachable history d) k ws Hget Hid).
Qed.

Lemma stale_entry_needs_second_identity_witness :
  JsMap.get "u1" (connectedClients one_closed) = Some 0 ∧
  Ws.readyState (sockets one_closed 0) = CLOSED ∧
  Ws.userId (sockets one_closed 0) ≠ Some "u1".
Proof.
  split_and!; [reflexivity..|].
  exact (stale_entry_needs_second_identity
           [EvConnection; EvConnection; EvConnection;
            EvMessage 0 (Some (auth_frame "u1"));
            EvMessage 1 (Some (auth_frame "u2"));
            EvMessage 2 (Some (auth_frame "u3"));
            EvMessage 0 (Some (auth_frame "u0"));
            EvClose 0] small_db "u1" 0 eq_refl eq_refl).
Defined.

(** X15.  Registering and closing undo each other for a socket that keeps
    one identity: when a socket authenticates as [u] and then closes, a
    lookup of [u] finds nothing, and if [u] had no entry before, the
    connection map is exactly what it was. *)
Theorem authenticate_then_close_unregisters
    (s : Server) (ws : nat) (u : string) (f : Msg.t) :
  auth_for u f →
  let s1 := exec (on_message ws (Some f)) s in
  let s2 := exec (close_event ws) s1 in
  JsMap.get u (connectedClients s1) = Some ws ∧
  JsMap.get u (connectedClients s2) = None ∧
  Ws.readyState (sockets s2 ws) = CLOSED ∧
  (u ∉ JsMap.keys (connectedClients s) → connectedClients s2 = connectedClients s).
Proof.
  intros Ha s1 s2.
  assert (s1 = upd_console (λ ls, ls ++ [LogUserConnected u])
                 (upd_clients (JsMap.set u ws)
                    (upd_socket ws (Ws.set_userId (Some u)) s))) as E1
    by (subst s1; unfold exec; by rewrite (on_message_auth_for ws u f)).
  assert (Ws.userId (sockets s1 ws) = Some u) as Hu
    by (rewrite E1; cbn; by rewrite decide_True).
  subst s2. unfold exec.
  rewrite (close_event_bound ws u s1) by (done || apply Ha). cbn.
  rewrite decide_True by done. rewrite E1. cbn.
  split_and!; [apply get_set_eq | apply get_delete_eq | done |].
  apply delete_set_fresh.
Qed.

Lemma authenticate_then_close_unregisters_witness :
  connectedClients
    (exec (close_event 2) (exec (on_message 2 (Some (auth_frame "u3"))) two_clients))
  = connectedClients two_clients.
Proof.
  refine (proj2 (proj2 (proj2 (authenticate_then_close_unregisters two_clients 2 "u3"
                                 (auth_frame "u3") _))) _).
  - split_and!; [reflexivity | discriminate | reflexivity].
  - apply (bool_decide_eq_false_1 _). reflexivity.
Defined.

(** A broadcast writes to a socket at most one frame per entry that
    names it. *)
Lemma forEach_frames_le
    (cid : Z) (m : Msg.t) (ws : nat) (entries : JsMap.t nat) (s0 : Server) :
  ∃ frames, wire (forEach (send_if_open cid m) entries s0).2 = wire s0 ++ frames
            ∧ frames_to ws frames ≤ registrations ws entries.
Proof.
  revert s0. induction entries as [|[k v] rest IH]; intros s0.
  - exists []. cbn. by rewrite app_nil_r.
  - cbn [forEach]. unfold mbind at 1, M_bind at 1.
    assert (registrations ws rest ≤ registrations ws ((k, v) :: rest)) as Hmono.
    { unfold registrations. cbn [List.filter snd].
      destruct (bool_decide (v = ws)); cbn [length]; lia. }
    destruct (decide (Ws.readyState (sockets s0 v) = OPEN)) as [Ho|Hc].
    + destruct (Ws.sendThrows (sockets s0 v)) eqn:Ht.
      * rewrite send_if_open_thrown; [|done|unfold accepts; by rewrite Ht].
        exists []. cbn. rewrite app_nil_r. split; [done|lia].
      * rewrite send_if_open_accepted by done.
        destruct (IH (written [(v, Msg.broadcast_of cid m)] s0))
          as (frames & Hw & Hle).
        exists ((v, Msg.broadcast_of cid m) :: frames). split.
        -- rewrite Hw. cbn. by rewrite <- app_assoc.
        -- unfold frames_to, registrations in *. cbn [List.filter fst snd].
           destruct (bool_decide (v = ws)); cbn [length]; lia.
    + rewrite send_if_open_closed by done.
      destruct (IH s0) as (frames & Hw & Hle). exists frames. split; [done|lia].
Qed.

(** Giving a key to another socket leaves the first socket the entries it
    has under other keys. *)
Lemma registrations_set_other (m : JsMap.t nat) (u : string) (c1 c2 : nat) :
  NoDup (JsMap.keys m) → c1 ≠ c2 →
  registrations c1 (JsMap.set u c2 m) = registrations c1 (JsMap.delete u m).
Proof.
  unfold JsMap.keys, registrations. intros Hnd Hne.
  induction m as [|[k v] m IH].
  - cbn. by rewrite bool_decide_eq_false_2 by done.
  - rewrite fmap_cons in Hnd. apply list.NoDup_cons in Hnd as [Hk Hnd].
    cbn [JsMap.set JsMap.delete]. destruct (decide (k = u)) as [->|Hku].
    + rewrite delete_fresh by done. cbn [List.filter snd].
      by rewrite bool_decide_eq_false_2 by done.
    + cbn [List.filter snd].
      destruct (bool_decide (v = c1)); cbn [length]; by rewrite IH.
Qed.

(** X16.  A takeover silences the superseded socket.  After any history,
    socket [c1] authenticates as [u] and then another socket [c2]
    authenticates as [u].  From then on [u] leads to [c2]: a signaling
    frame for [u] from an authenticated socket is written to [c2], once,
    and to nobody else; and a broadcast writes to [c1] at most one frame
    for each entry [c1] still has under another identity, so none when
    it has no such entry.  Yet [c1] is still bound to [u], and its ready
    state is what it was. *)
Theorem takeover_silences_old_socket
    (d : Database) (history : list Event) (u : string) (c1 c2 : nat)
    (f1 f2 : Msg.t) (ws : nat) (data : Msg.t) (cid : Z) (m : Msg.t) :
  auth_for u f1 → auth_for u f2 → c1 ≠ c2 →
  let s := run history (init d) in
  let s2 := exec (on_message c2 (Some f2)) (exec (on_message c1 (Some f1)) s) in
  JsMap.get u (connectedClients s2) = Some c2 ∧
  Ws.userId (sockets s2 c1) = Some u ∧
  Ws.readyState (sockets s2 c1) = Ws.readyState (sockets s c1) ∧
  (truthy (Ws.userId (sockets s2 ws)) = true →
   is_auth data = false → Msg.target data = Some u →
   Ws.readyState (sockets s2 c2) = OPEN → accepts s2 c2 →
   wire (exec (on_message ws (Some data)) s2)
   = wire s2 ++ [(c2, Msg.with_from (Ws.userId (sockets s2 ws)) data)]) ∧
  ∃ frames,
    wire (exec (broadcastMessage cid m) s2) = wire s2 ++ frames ∧
    frames_to c1 frames ≤ registrations c1 (JsMap.delete u (connectedClients s)).
Proof.
  intros Ha Hb Hne s s2.
  assert (s2 = upd_console (λ ls, ls ++ [LogUserConnected u])
                 (upd_clients (JsMap.set u c2)
                    (upd_socket c2 (Ws.set_userId (Some u))
                       (upd_console (λ ls, ls ++ [LogUserConnected u])
                          (upd_clients (JsMap.set u c1)
                             (upd_socket c1 (Ws.set_userId (Some u)) s)))))) as E.
  { subst s2. unfold exec.
    rewrite (on_message_auth_for c1 u f1) by done. cbn [snd].
    by rewrite (on_message_auth_for c2 u f2). }
  assert (connectedClients s2 = JsMap.set u c2 (connectedClients s)) as Hm
    by (rewrite E; cbn; apply set_set).
  assert (JsMap.get u (connectedClients s2) = Some c2) as Hget
    by (rewrite Hm; apply get_set_eq).
  split_and!.
  - exact Hget.
  - rewrite E. cbn. rewrite decide_False by done. by rewrite decide_True.
  - rewrite E. cbn. rewrite decide_False by done. by rewrite decide_True.
  - intros Hsender Hna Ht Hopen Hacc. unfold exec.
    rewrite on_message_signaling by done. unfold try_catch.
    by rewrite (handle_signaling_forward ws c2 data s2 u); try done; try apply Ha.
  - unfold exec. rewrite broadcastMessage_unfold.
    destruct (forEach_frames_le cid m c1 (connectedClients s2) s2)
      as (frames & Hw & Hle).
    exists frames. split; [exact Hw|].
    rewrite Hm, registrations_set_other in Hle; [done| |done].
    apply reachable_NoDup_keys.
Qed.

Lemma takeover_silences_old_socket_witness :
  ∃ frames,
    wire (exec (broadcastMessage 1 (new_message_event (hello 3)))
            (exec (on_message 1 (Some (auth_frame "u1")))
               (exec (on_message 0 (Some (auth_frame "u1")))
                  (run [EvConnection; EvConnection] (init small_db)))))
    = frames ∧ frames_to 0 frames = 0 ∧ frames_to 1 frames = 1.
Proof.
  assert (auth_for "u1" (auth_frame "u1")) as Hauth
    by (split_and!; [reflexivity | discriminate | reflexivity]).
  destruct (takeover_silences_old_socket small_db [EvConnection; EvConnection]
              "u1" 0 1 (auth_frame "u1") (auth_frame "u1") 0
              (frame_to "offer" "u1") 1
              (new_message_event (hello 3)) Hauth Hauth ltac:(discriminate))
    as (_ & _ & _ & _ & frames & Hw & Hz).
  exists frames. split; [exact Hw|]. split.
  - cbn in Hz. lia.
  - apply (app_inv_head (wire (exec (on_message 1 (Some (auth_frame "u1")))
               (exec (on_message 0 (Some (auth_frame "u1")))
                  (run [EvConnection; EvConnection] (init small_db)))))) in Hw.
    by subst frames.
Defined.

Lemma frames_to_copies (s : Server) (frame : Msg.t) (ws : nat) (m : JsMap.t nat) :
  Ws.readyState (sockets s ws) = OPEN →
  frames_to ws (copies frame (open_among s (JsMap.values m))) = registrations ws m.
Proof.
  intros Hopen. unfold frames_to, copies, open_among, registrations, JsMap.values.
  induction m as [|[k v] m IH]; [done|].
  rewrite fmap_cons. cbn [List.filter snd].
  destruct (decide (v = ws)) as [->|Hne].
  - rewrite (bool_decide_eq_true_2 _ Hopen). rewrite fmap_cons.
    cbn [List.filter fst]. rewrite !bool_decide_eq_true_2 by done.
    cbn [length]. by rewrite IH.
  - rewrite (bool_decide_eq_false_2 (v = ws)) by done.
    destruct (bool_decide (Ws.readyState (sockets s v) = OPEN)); [|done].
    rewrite fmap_cons. cbn [List.filter fst].
    by rewrite bool_decide_eq_false_2 by done.
Qed.

(** X17.  The broadcaster writes one frame per entry of the connection
    map, not one per socket: when no open socket throws, an open socket
    receives as many copies of a broadcast as there are identities mapped
    to it, so a socket that authenticated under two identities receives
    every broadcast twice, and a socket with no entry receives none. *)
Theorem broadcast_copies_per_registration
    (s : Server) (cid : Z) (m : Msg.t) (ws : nat) :
  Forall (accepts s) (open_clients s) →
  Ws.readyState (sockets s ws) = OPEN →
  ∃ frames,
    wire (exec (broadcastMessage cid m) s) = wire s ++ frames ∧
    frames_to ws frames = registrations ws (connectedClients s).
Proof.
  intros Hall Hopen. unfold exec.
  rewrite broadcastMessage_unfold, forEach_all_accept by done.
  eexists. split; [reflexivity|]. by apply frames_to_copies.
Qed.

Lemma broadcast_copies_per_registration_witness :
  connectedClients two_names = [("u1", 0); ("u2", 1); ("u5", 0)] ∧
  (fst <$> wire (exec (broadcastMessage 1 (new_message_event (hello 3))) two_names))
  = [0; 1; 0].
Proof.
  assert (Forall (accepts two_names) (open_clients two_names)) as Hall
    by (repeat constructor).
  destruct (broadcast_copies_per_registration two_names 1
              (new_message_event (hello 3)) 0 Hall eq_refl) as (frames & Hw & Hn).
  split; reflexivity.
Defined.

(* --------------------------------------------------------------------- *)
(*  The client                                                           *)
(* --------------------------------------------------------------------- *)

Lemma reconnect_delay_small (n : nat) :
  n < maxReconnectAttempts →
  reconnect_delay n = (1000 * 2 ^ Z.of_nat n)%Z ∧ (reconnect_delay n ≤ 16000)%Z.
Proof.
  unfold maxReconnectAttempts. intros Hn.
  assert (n = 0 ∨ n = 1 ∨ n = 2 ∨ n = 3 ∨ n = 4) as Hcases by lia.
  destruct Hcases as [->|[->|[->|[->| ->]]]]; by vm_compute.
Qed.

Lemma failed_reconnects_prefix (codes : list Z) (h : Hook.t) :
  Hook.reconnectTimeout h = None →
  Hook.reconnectAttempts h ≤ maxReconnectAttempts →
  (failed_reconnects codes h).1
    `prefix_of` (reconnect_delay <$> seq (Hook.reconnectAttempts h)
                   (maxReconnectAttempts - Hook.reconnectAttempts h)).
Proof.
  revert h. induction codes as [|code rest IH]; intros h Hnone Hle.
  - apply prefix_nil.
  - cbn [failed_reconnects]. unfold ws_onclose.
    destruct (negb (bool_decide (code = 1000%Z))
              && bool_decide (Hook.reconnectAttempts h < maxReconnectAttempts))
      eqn:Hsched.
    + apply andb_true_iff in Hsched as [_ Hlt%bool_decide_eq_true].
      cbn [Hook.reconnectTimeout].
      specialize (IH (reconnect_timer
        {| Hook.isConnected := false; Hook.error := Hook.error h;
           Hook.reconnectAttempts := Hook.reconnectAttempts h;
           Hook.reconnectTimeout := Some (reconnect_delay (Hook.reconnectAttempts h)) |})
        eq_refl).
      cbn [reconnect_timer Hook.reconnectAttempts] in IH.
      destruct (failed_reconnects rest _) as [delays h2]. cbn [fst] in *.
      replace (maxReconnectAttempts - Hook.reconnectAttempts h)
        with (S (maxReconnectAttempts - S (Hook.reconnectAttempts h))) by lia.
      cbn [seq]. rewrite fmap_cons. apply prefix_cons. apply IH. lia.
    + destruct (bool_decide (maxReconnectAttempts ≤ Hook.reconnectAttempts h));
        cbn [Hook.reconnectTimeout]; rewrite Hnone; apply prefix_nil.
Qed.

(** X18.  Between two successful opens the hook reconnects at most five
    times: whatever close codes arrive, the delays it schedules are an
    initial part of 1 s, 2 s, 4 s, 8 s, 16 s.  The 30 s cap of the delay
    formula is never reached, and after five failed reconnects a further
    close schedules nothing. *)
Theorem reconnects_are_bounded (codes : list Z) (h : Hook.t) :
  Hook.reconnectTimeout h = None →
  Hook.reconnectAttempts h = 0 →
  (failed_reconnects codes h).1 `prefix_of` [1000; 2000; 4000; 8000; 16000]%Z ∧
  length (failed_reconnects codes h).1 ≤ 5 ∧
  Forall (λ d, (d < 30000)%Z) (failed_reconnects codes h).1.
Proof.
  intros Hnone H0.
  pose proof (failed_reconnects_prefix codes h Hnone ltac:(rewrite H0; unfold maxReconnectAttempts; lia))
    as Hpre.
  rewrite H0 in Hpre. change (reconnect_delay <$> seq 0 (maxReconnectAttempts - 0))
    with [1000; 2000; 4000; 8000; 16000]%Z in Hpre.
  split_and!; [done| |].
  - apply prefix_length in Hpre. cbn in Hpre. lia.
  - destruct Hpre as [k Hk].
    assert (Forall (λ d, (d < 30000)%Z) [1000; 2000; 4000; 8000; 16000]%Z) as Hall
      by (repeat constructor; lia).
    rewrite Hk in Hall. by apply Forall_app in Hall as [? _].
Qed.

Lemma reconnects_are_bounded_witness :
  (failed_reconnects [1006; 1006; 1006; 1006; 1006; 1006; 1006]%Z hook_connected).1
  = [1000; 2000; 4000; 8000; 16000]%Z ∧
  Hook.error (failed_reconnects [1006; 1006; 1006; 1006; 1006; 1006; 1006]%Z
                hook_connected).2
  = Some "Connection lost. Please refresh the page to reconnect." ∧
  length (failed_reconnects [1006; 1006; 1001; 1000; 1006]%Z hook_connected).1 ≤ 5.
Proof.
  split_and!; [reflexivity..|].
  exact (proj1 (proj2 (reconnects_are_bounded [1006; 1006; 1001; 1000; 1006]%Z
                         hook_connected eq_refl eq_refl))).
Defined.

Lemma not_auth_of_type (data : Msg.t) (ty : string) :
  Msg.type data = Some ty → ty ≠ "" → ty ≠ "auth" → is_auth data = false.
Proof.
  intros Hty Hne Hna. unfold is_auth. rewrite Hty. cbn.
  rewrite (bool_decide_eq_true_2 (ty ≠ "")) by done. cbn.
  rewrite bool_decide_eq_false_2 by congruence. apply andb_false_r.
Qed.

(** X19.  The incoming-call dialog shows the identity the server
    verified.  A socket bound to S sends a 'call-start' frame for a
    registered, open, accepting target; whatever [from] the sender wrote
    into the frame, the frame the target's socket receives makes the
    target's Home page record an incoming call from S, for the frame's
    conversation, of the call type named in its data ('video', otherwise
    voice). *)
Theorem incoming_call_names_verified_sender
    (s : Server) (ws tws : nat) (S T : string) (data : Msg.t) (h : Home.t) :
  Ws.userId (sockets s ws) = Some S → S ≠ "" →
  Msg.type data = Some "call-start" →
  Msg.target data = Some T → T ≠ "" →
  JsMap.get T (connectedClients s) = Some tws →
  Ws.readyState (sockets s tws) = OPEN →
  accepts s tws →
  ∃ received,
    wire (exec (on_message ws (Some data)) s) = wire s ++ [(tws, received)] ∧
    Home.incomingCall (home_on_message received h)
    = Some {| Home.type :=
                if is_JStr "video" (json_prop "callType" (Msg.data data))
                then video else voice;
              Home.fromUserId := Some S;
              Home.conversationId := Msg.conversationId data |}.
Proof.
  intros HS HSne Hty Ht HT Hget Hopen Hacc.
  exists (Msg.with_from (Some S) data). split.
  - unfold exec.
    rewrite on_message_signaling by (by apply (not_auth_of_type data "call-start")).
    unfold try_catch.
    rewrite (handle_signaling_forward ws tws data s T); try done.
    + cbn. by rewrite HS.
    + rewrite HS. by apply truthy_some.
  - unfold home_on_message. cbn [Msg.with_from Msg.type Msg.data Msg.from
      Msg.conversationId]. rewrite Hty. reflexivity.
Qed.

Lemma incoming_call_names_verified_sender_witness :
  ∃ sent received,
    call_start_frame video (Some 1%Z) (Some "u1") = Some sent ∧
    wire (exec (on_message 1 (Some sent)) two_clients) = [(0, received)] ∧
    Home.incomingCall (home_on_message received home_in_call)
    = Some {| Home.type := video; Home.fromUserId := Some "u2";
              Home.conversationId := Some 1%Z |}.
Proof.
  eexists _, _. split; [reflexivity|].
  destruct (incoming_call_names_verified_sender two_clients 1 0 "u2" "u1"
              {| Msg.type := Some "call-start"; Msg.target := Some "u1";
                 Msg.data := Some (callType_json video);
                 Msg.conversationId := Some 1%Z;
                 Msg.userId := None; Msg.from := None |}
              home_in_call eq_refl ltac:(discriminate) eq_refl eq_refl
              ltac:(discriminate) eq_refl eq_refl eq_refl)
    as (received & Hw & Hcall).
  split; reflexivity.
Defined.

(** X20.  The end of a video call is addressed to the conversation, not
    to the other user.  The frame [handleEndCall] of the video dialog sends
    has the decimal text of the conversation id as target; when no socket
    is registered under that text the relay writes it to nobody, so the
    other side is not told.  The voice dialog addresses the same event to
    the other user, whose Home page then drops the incoming call and
    closes both call dialogs. *)
Theorem video_call_end_reaches_nobody
    (s : Server) (ws tws : nat) (S T : string) (cid : Z) (h : Home.t) :
  Ws.userId (sockets s ws) = Some S → S ≠ "" →
  cid ≠ 0%Z → T ≠ "" →
  JsMap.get T (connectedClients s) = Some tws →
  Ws.readyState (sockets s tws) = OPEN →
  accepts s tws →
  JsMap.get (pretty.pretty cid) (connectedClients s) = None →
  ∃ video_end voice_end,
    video_call_end_frame (Some cid) = Some video_end ∧
    Msg.target video_end = Some (pretty.pretty cid) ∧
    wire (exec (on_message ws (Some video_end)) s) = wire s ∧
    voice_call_end_frame (Some cid) (Some T) = Some voice_end ∧
    wire (exec (on_message ws (Some voice_end)) s)
    = wire s ++ [(tws, Msg.with_from (Some S) voice_end)] ∧
    Home.incomingCall (home_on_message (Msg.with_from (Some S) voice_end) h) = None ∧
    Home.isCallModalOpen (home_on_message (Msg.with_from (Some S) voice_end) h) = false ∧
    Home.isVideoCallModalOpen (home_on_message (Msg.with_from (Some S) voice_end) h)
    = false.
Proof.
  intros HS HSne Hcid HT Hget Hopen Hacc Hnone.
  unfold video_call_end_frame, voice_call_end_frame. cbn [truthy_number truthy].
  rewrite (bool_decide_eq_false_2 (cid = 0%Z)) by done.
  rewrite (bool_decide_eq_true_2 (T ≠ "")) by done. cbn [negb andb].
  eexists _, _. split; [reflexivity|]. split; [reflexivity|].
  split_and!; try reflexivity.
  - unfold exec. rewrite on_message_signaling by reflexivity. unfold try_catch.
    destruct (decide (pretty.pretty cid = "")) as [Hempty|Hne].
    + rewrite handle_signaling_invalid; [done|].
      cbn. rewrite Hempty. cbn. apply andb_false_r.
    + rewrite (handle_signaling_unreachable ws _ s (pretty.pretty cid)); try done.
      * rewrite HS. by apply truthy_some.
      * intros tws0. by rewrite Hnone.
  - unfold exec. rewrite on_message_signaling by reflexivity. unfold try_catch.
    rewrite (handle_signaling_forward ws tws _ s T); try done.
    + cbn. by rewrite HS.
    + rewrite HS. by apply truthy_some.
Qed.

Lemma video_call_end_reaches_nobody_witness :
  ∃ video_end,
    video_call_end_frame (Some 1%Z) = Some video_end ∧
    Msg.target video_end = Some "1" ∧
    wire (exec (on_message 1 (Some video_end)) two_clients) = [].
Proof.
  destruct (video_call_end_reaches_nobody two_clients 1 0 "u2" "u1" 1 home_in_call
              eq_refl ltac:(discriminate) ltac:(discriminate) ltac:(discriminate)
              eq_refl eq_refl eq_refl eq_refl)
    as (video_end & voice_end & Hv & Ht & Hw & _).
  exists video_end. split; [exact Hv|]. split; [|exact Hw].
  rewrite Ht. reflexivity.
Defined.

Lemma home_on_new_message (frame : Msg.t) (h : Home.t) :
  Msg.type frame = Some "new-message" →
  home_on_message frame h
  = if same_conversation (Msg.conversationId frame) (Home.selectedConversationId h)
    then home_invalidate [MessagesQuery (Home.selectedConversationId h)]
           (home_invalidate [ConversationsQuery] h)
    else home_invalidate [ConversationsQuery] h.
Proof. intros Hty. unfold home_on_message. rewrite Hty. reflexivity. Qed.

(** X21.  Every connected client refreshes on every stored message.  When
    the message route succeeds, each open socket of the connection map is
    written the event, whoever its user is; the Home page that receives it
    recognises its type, invalidates the conversation list, and
    invalidates the message list exactly when the event's conversation is
    the one selected.  Call state is not touched. *)
Theorem every_client_refreshes_on_new_message
    (created now : Z) (ins : InsertMessage.t) (s : Server) (u : string) (ws : nat)
    (h : Home.t) :
  references_ok (db s) ins = true →
  Forall (accepts s) (open_clients s) →
  (u, ws) ∈ connectedClients s →
  Ws.readyState (sockets s ws) = OPEN →
  ∃ frame,
    (ws, frame) ∈ wire (exec (post_message created now ins) s) ∧
    Home.invalidated (home_on_message frame h)
    = Home.invalidated h ++ [ConversationsQuery]
      ++ (if decide (Home.selectedConversationId h
                     = Some (InsertMessage.conversationId ins))
          then [MessagesQuery (Home.selectedConversationId h)] else []) ∧
    Home.incomingCall (home_on_message frame h) = Home.incomingCall h ∧
    Home.isCallModalOpen (home_on_message frame h) = Home.isCallModalOpen h ∧
    Home.isVideoCallModalOpen (home_on_message frame h) = Home.isVideoCallModalOpen h.
Proof.
  intros Hok Hall Hin Hopen.
  exists (Msg.broadcast_of (InsertMessage.conversationId ins)
            (new_message_event (inserted_row created (db s) ins))).
  split.
  - unfold exec. rewrite post_message_accepted by done. cbn.
    apply elem_of_app. right. unfold copies.
    apply (list_elem_of_fmap_2 (λ ws, (ws, _))).
    unfold open_clients, open_among. apply list_elem_of_In, filter_In. split.
    + apply list_elem_of_In. unfold JsMap.values.
      by apply (list_elem_of_fmap_2 snd _ (u, ws)).
    + by apply bool_decide_eq_true_2.
  - rewrite home_on_new_message by reflexivity.
    cbn [Msg.broadcast_of Msg.conversationId new_message_event same_conversation].
    destruct (Home.selectedConversationId h) as [sel|] eqn:Hsel.
    + destruct (decide (Some sel = Some (InsertMessage.conversationId ins)))
        as [[= ->]|Hne].
      * rewrite bool_decide_eq_true_2 by done. cbn.
        by rewrite <- app_assoc.
      * rewrite bool_decide_eq_false_2 by congruence. done.
    + done.
Qed.

Lemma every_client_refreshes_on_new_message_witness :
  "u3" ≠ Conversation.participant1Id conv_24h ∧
  "u3" ≠ Conversation.participant2Id conv_24h ∧
  ∃ frame,
    (2, frame) ∈ wire (exec (post_message 4 5 hi_from_u3) one_closed) ∧
    Home.invalidated (home_on_message frame home_in_call)
    = [ConversationsQuery; MessagesQuery (Some 1%Z)].
Proof.
  split; [discriminate|]. split; [discriminate|].
  assert (Forall (accepts one_closed) (open_clients one_closed)) as Hall
    by (repeat constructor).
  assert (("u3", 2) ∈ connectedClients one_closed) as Hin
    by (vm_compute; do 2 right; left).
  destruct (every_client_refreshes_on_new_message 4 5 hi_from_u3 one_closed "u3" 2
              home_in_call eq_refl Hall Hin eq_refl) as (frame & Hw & Hinv & _).
  exists frame. split; [exact Hw|]. rewrite Hinv. reflexivity.
Defined.
